(** * Cosmic Dodge: a shallow embedding of [src/html/game.js]

    The game keeps its state in the variables of one closure
    ([GameSystem]).  Here that closure is a record [Game], every function
    of the closure is a function from [Game] to [Game], and the values
    drawn from [Math.random()] and read from the browser ([window],
    mouse events) are explicit arguments.

    Numbers.  JavaScript numbers are binary64 floats.  The counters
    [score] and [frameCount] only ever hold small non-negative integers
    and are modelled by [Z].  Coordinates, sizes, speeds and alpha values
    are modelled by rationals [Q], compared with [==], [<] and [<=] of
    [QArith].  The functions are given twice.  First with exact
    arithmetic: the decimal literals of the source ([0.15], [0.05],
    [0.005], ...) denote the decimal fractions they spell and no
    operation rounds.  Then, in [Rounded], with a rounding [rnd] around
    every operation and every decimal literal and with [Math.hypot] as a
    parameter: this is the model for the collision test and for the
    spawned asteroid, where the last bit of a number decides.
    [binary64] is the rounding of JavaScript, and the fading of a trail
    particle is also computed with primitive floats
    ([alpha_binary64]). *)

From Stdlib Require Import Floats.
From Stdlib Require Import ZArith QArith Qround Qpower Qabs Lia Psatz Reals Qreals.
From stdpp Require Import base list strings pretty.

Local Open Scope Z_scope.
Local Open Scope Q_scope.

(** ** Numbers *)

(** [a < b] and [a <= b] on numbers, as the tests of [if] statements. *)
Definition Qltb (a b : Q) : bool := negb (Qle_bool b a).
Definition Qleb (a b : Q) : bool := Qle_bool a b.

Definition Math_floor (a : Q) : Z := Qfloor a.
Definition Math_min (a b : Q) : Q := if Qltb b a then b else a.

(** The binary64 value of [Math.PI], as an exact fraction. *)
Definition Math_PI : Q := 884279719003555 # 281474976710656.


(** The test [Math.hypot(dx, dy) < t], decided on rationals: the norm is
    not negative, so it is below [t] exactly when [t] is positive and the
    squares compare ([hypot_lt_spec] below). *)
Definition hypot_lt (dx dy t : Q) : bool :=
  Qltb 0 t && Qltb (dx * dx + dy * dy) (t * t).

(** A number written into [innerText] becomes its decimal string. *)
Definition String_of_number (n : Z) : string := pretty n.

(** ** Entities *)

(** An element of [player.trail]. *)
Record TrailParticle := mkTrailParticle {
  p_x : Q;
  p_y : Q;
  p_radius : Q;
  p_alpha : Q
}.

(** The object [player]. *)
Record Player := mkPlayer {
  player_x : Q;
  player_y : Q;
  player_size : Q;
  player_color : string;
  player_trail : list TrailParticle
}.

(** An element of [asteroids]; [ast_color] is [None] for [undefined]. *)
Record Asteroid := mkAsteroid {
  ast_x : Q;
  ast_y : Q;
  ast_size : Q;
  ast_speed : Q;
  ast_color : option string;
  ast_rotation : Q;
  ast_rotSpeed : Q
}.

Definition asteroidColors : list string :=
  ["#F080F0"; "#FFD700"; "#aaaaaa"; "#ff5555"]%string.

(** ** The page and the browser *)

(** What the game writes to the page: the two score texts and the classes
    [hidden], [flex] and [modal-visible] of the screens and of the modal.
    The pixels of the canvas are not part of the model. *)
Record Page := mkPage {
  scoreEl_innerText : string;
  finalScoreEl_innerText : string;
  startScreen_hidden : bool;
  gameOverScreen_hidden : bool;
  gameOverScreen_flex : bool;
  modal_hidden : bool;
  modal_visible : bool
}.

(** [window.innerWidth] and [window.innerHeight]. *)
Record Window := mkWindow {
  innerWidth : Q;
  innerHeight : Q
}.

(** The six values [spawnAsteroid] takes from [Math.random()], in the
    order of the calls. *)
Record Draws := mkDraws {
  r_size : Q;
  r_x : Q;
  r_speed : Q;
  r_color : Q;
  r_rotation : Q;
  r_rotSpeed : Q
}.

(** ** The state of the closure *)

(** [animationId] is [None] while [undefined]; [rafPending] are the
    handles of the frame callbacks requested and not yet run or
    cancelled, oldest first, and [rafNext] the next handle the browser
    hands out. *)
Record Game := mkGame {
  animationId : option nat;
  score : Z;
  gameActive : bool;
  frameCount : Z;
  width : Q;
  height : Q;
  player : Player;
  asteroids : list Asteroid;
  mouseX : Q;
  mouseY : Q;
  page : Page;
  rafPending : list nat;
  rafNext : nat
}.

Definition set_x (p : Player) (v : Q) : Player :=
  mkPlayer v (player_y p) (player_size p) (player_color p) (player_trail p).
Definition set_y (p : Player) (v : Q) : Player :=
  mkPlayer (player_x p) v (player_size p) (player_color p) (player_trail p).
Definition set_trail (p : Player) (v : list TrailParticle) : Player :=
  mkPlayer (player_x p) (player_y p) (player_size p) (player_color p) v.

Definition set_animationId (g : Game) (v : option nat) : Game :=
  mkGame v (score g) (gameActive g) (frameCount g) (width g) (height g)
    (player g) (asteroids g) (mouseX g) (mouseY g) (page g)
    (rafPending g) (rafNext g).
Definition set_score (g : Game) (v : Z) : Game :=
  mkGame (animationId g) v (gameActive g) (frameCount g) (width g) (height g)
    (player g) (asteroids g) (mouseX g) (mouseY g) (page g)
    (rafPending g) (rafNext g).
Definition set_gameActive (g : Game) (v : bool) : Game :=
  mkGame (animationId g) (score g) v (frameCount g) (width g) (height g)
    (player g) (asteroids g) (mouseX g) (mouseY g) (page g)
    (rafPending g) (rafNext g).
Definition set_frameCount (g : Game) (v : Z) : Game :=
  mkGame (animationId g) (score g) (gameActive g) v (width g) (height g)
    (player g) (asteroids g) (mouseX g) (mouseY g) (page g)
    (rafPending g) (rafNext g).
Definition set_dimensions (g : Game) (w h : Q) : Game :=
  mkGame (animationId g) (score g) (gameActive g) (frameCount g) w h
    (player g) (asteroids g) (mouseX g) (mouseY g) (page g)
    (rafPending g) (rafNext g).
Definition set_player (g : Game) (v : Player) : Game :=
  mkGame (animationId g) (score g) (gameActive g) (frameCount g) (width g)
    (height g) v (asteroids g) (mouseX g) (mouseY g) (page g)
    (rafPending g) (rafNext g).
Definition set_asteroids (g : Game) (v : list Asteroid) : Game :=
  mkGame (animationId g) (score g) (gameActive g) (frameCount g) (width g)
    (height g) (player g) v (mouseX g) (mouseY g) (page g)
    (rafPending g) (rafNext g).
Definition set_mouse (g : Game) (mx my : Q) : Game :=
  mkGame (animationId g) (score g) (gameActive g) (frameCount g) (width g)
    (height g) (player g) (asteroids g) mx my (page g)
    (rafPending g) (rafNext g).
Definition set_page (g : Game) (v : Page) : Game :=
  mkGame (animationId g) (score g) (gameActive g) (frameCount g) (width g)
    (height g) (player g) (asteroids g) (mouseX g) (mouseY g) v
    (rafPending g) (rafNext g).
Definition set_raf (g : Game) (pending : list nat) (next : nat) : Game :=
  mkGame (animationId g) (score g) (gameActive g) (frameCount g) (width g)
    (height g) (player g) (asteroids g) (mouseX g) (mouseY g) (page g)
    pending next.

Definition set_scoreEl (pg : Page) (v : string) : Page :=
  mkPage v (finalScoreEl_innerText pg) (startScreen_hidden pg)
    (gameOverScreen_hidden pg) (gameOverScreen_flex pg) (modal_hidden pg)
    (modal_visible pg).
Definition set_finalScoreEl (pg : Page) (v : string) : Page :=
  mkPage (scoreEl_innerText pg) v (startScreen_hidden pg)
    (gameOverScreen_hidden pg) (gameOverScreen_flex pg) (modal_hidden pg)
    (modal_visible pg).
Definition set_startScreen_hidden (pg : Page) (v : bool) : Page :=
  mkPage (scoreEl_innerText pg) (finalScoreEl_innerText pg) v
    (gameOverScreen_hidden pg) (gameOverScreen_flex pg) (modal_hidden pg)
    (modal_visible pg).
Definition set_gameOverScreen (pg : Page) (hidden flex : bool) : Page :=
  mkPage (scoreEl_innerText pg) (finalScoreEl_innerText pg)
    (startScreen_hidden pg) hidden flex (modal_hidden pg)
    (modal_visible pg).
Definition set_modal (pg : Page) (hidden visible : bool) : Page :=
  mkPage (scoreEl_innerText pg) (finalScoreEl_innerText pg)
    (startScreen_hidden pg) (gameOverScreen_hidden pg)
    (gameOverScreen_flex pg) hidden visible.

(** The three states of a session, read off [gameActive] and the
    game-over screen. *)
Inductive SessionState := Idle | Running | Ended.

Definition session_state (g : Game) : SessionState :=
  if gameActive g then Running
  else if gameOverScreen_hidden (page g) then Idle else Ended.

(** ** Helper functions *)

(** [resizeGame]: the surface is at most 800 by 600 and at most 95% of
    the window's width and 80% of its height; an inactive game gets its
    player back at the bottom centre. *)
Definition resizeGame (win : Window) (g : Game) : Game :=
  let maxWidth := innerWidth win * 0.95 in
  let maxHeight := innerHeight win * 0.8 in
  let g := set_dimensions g (Math_min 800 maxWidth) (Math_min 600 maxHeight) in
  if negb (gameActive g)
  then set_player g (set_y (set_x (player g) (width g / 2)) (height g - 100))
  else g.

(** ** Game loop functions *)

(** [asteroidColors[k]] for an integer [k]. *)
Definition color_at (k : Z) : option string :=
  if (k <? 0)%Z then None else asteroidColors !! Z.to_nat k.

(** The object literal [spawnAsteroid] builds. *)
Definition new_asteroid (d : Draws) (width : Q) (score : Z) : Asteroid :=
  let size := r_size d * 25 + 10 in
  let x := r_x d * (width - size) in
  let speed := r_speed d * 3 + 2 + (inject_Z score * 0.005) in
  {| ast_x := x;
     ast_y := - size;
     ast_size := size;
     ast_speed := speed;
     ast_color :=
       color_at (Math_floor (r_color d * inject_Z (Z.of_nat (length asteroidColors))));
     ast_rotation := r_rotation d * Math_PI;
     ast_rotSpeed := (r_rotSpeed d - 0.5) * 0.1 |}.

Definition spawnAsteroid (d : Draws) (g : Game) : Game :=
  set_asteroids g (asteroids g ++ [new_asteroid d (width g) (score g)]).

(** [endGame]; [cancelAnimationFrame] drops the handle from the pending
    requests, if it is still there. *)
Definition cancelAnimationFrame (id : option nat) (g : Game) : Game :=
  match id with
  | Some h => set_raf g (filter (fun k => k ≠ h) (rafPending g)) (rafNext g)
  | None => g
  end.

Definition endGame (g : Game) : Game :=
  let g := set_gameActive g false in
  let g := cancelAnimationFrame (animationId g) g in
  let g := set_page g (set_finalScoreEl (page g)
             (String_of_number (Math_floor (inject_Z (score g) / 10)))) in
  set_page g (set_gameOverScreen (page g) false true).

(** *** The parts of [update], in the order of the source *)

(** Lines 90-92: [score++] and the score display. *)
Definition increase_score (g : Game) : Game :=
  let g := set_score g (score g + 1) in
  set_page g (set_scoreEl (page g)
    (String_of_number (Math_floor (inject_Z (score g) / 10)))).

(** Lines 94-98: the player moves 15% of the way to the mouse. *)
Definition move_player (g : Game) : Game :=
  let dx := mouseX g - player_x (player g) in
  let dy := mouseY g - player_y (player g) in
  let p := set_x (player g) (player_x (player g) + dx * 0.15) in
  let p := set_y p (player_y p + dy * 0.15) in
  set_player g p.

(** Lines 100-104: the four boundary checks, one after the other. *)
Definition boundary_checks (g : Game) : Game :=
  let p := player g in
  let p := if Qltb (player_x p) (player_size p)
           then set_x p (player_size p) else p in
  let p := if Qltb (width g - player_size p) (player_x p)
           then set_x p (width g - player_size p) else p in
  let p := if Qltb (player_y p) (player_size p)
           then set_y p (player_size p) else p in
  let p := if Qltb (height g - player_size p) (player_y p)
           then set_y p (height g - player_size p) else p in
  set_player g p.

(** Lines 106-109: a new trail particle when [frameCount % 3 === 0]. *)
Definition new_particle (p : Player) : TrailParticle :=
  {| p_x := player_x p;
     p_y := player_y p + 15;
     p_radius := player_size p / 2;
     p_alpha := 1 |}.

Definition create_trail (g : Game) : Game :=
  if (Z.rem (frameCount g) 3 =? 0)%Z
  then set_player g
         (set_trail (player g) (player_trail (player g) ++ [new_particle (player g)]))
  else g.

(** Lines 111-117: the loop over the trail, from the last index down to
    0.  [trail_loop n trail] runs the iterations [i = n-1, ..., 0]; the
    particle at [i] is changed in place, then spliced out when its alpha
    is used up. *)
Definition age_particle (p : TrailParticle) : TrailParticle :=
  {| p_x := p_x p;
     p_y := p_y p + 2;
     p_radius := p_radius p;
     p_alpha := p_alpha p - 0.05 |}.

Fixpoint trail_loop (n : nat) (trail : list TrailParticle) : list TrailParticle :=
  match n with
  | O => trail
  | S i =>
    match trail !! i with
    | None => trail_loop i trail
    | Some p =>
      let p := age_particle p in
      let trail := <[i := p]> trail in
      if Qleb (p_alpha p) 0
      then trail_loop i (delete i trail)
      else trail_loop i trail
    end
  end.

Definition update_trail (g : Game) : Game :=
  let trail := player_trail (player g) in
  set_player g (set_trail (player g) (trail_loop (length trail) trail)).

(** Lines 119-127: the spawn rate and the call of [spawnAsteroid]. *)
Definition spawnRate (score : Z) : Z :=
  let spawnRate := 45%Z in
  let spawnRate := if (score >? 500)%Z then 35%Z else spawnRate in
  let spawnRate := if (score >? 1000)%Z then 25%Z else spawnRate in
  let spawnRate := if (score >? 2000)%Z then 15%Z else spawnRate in
  spawnRate.

Definition spawn_asteroids (d : Draws) (g : Game) : Game :=
  if (Z.rem (frameCount g) (spawnRate (score g)) =? 0)%Z
  then spawnAsteroid d g
  else g.

(** Lines 129-149: the loop over the asteroids, from the last index down
    to 0.  [asteroid_loop n g] runs the iterations [i = n-1, ..., 0]; the
    boolean tells that [update] has returned from inside the loop (after
    [endGame]). *)
Definition advance (ast : Asteroid) : Asteroid :=
  {| ast_x := ast_x ast;
     ast_y := ast_y ast + ast_speed ast;
     ast_size := ast_size ast;
     ast_speed := ast_speed ast;
     ast_color := ast_color ast;
     ast_rotation := ast_rotation ast + ast_rotSpeed ast;
     ast_rotSpeed := ast_rotSpeed ast |}.

Definition off_screen (height : Q) (ast : Asteroid) : bool :=
  Qltb (height + ast_size ast) (ast_y ast).

Definition crashed (p : Player) (ast : Asteroid) : bool :=
  hypot_lt (player_x p - ast_x ast) (player_y p - ast_y ast)
           (player_size p + ast_size ast - 5).

Fixpoint asteroid_loop (n : nat) (g : Game) : Game * bool :=
  match n with
  | O => (g, false)
  | S i =>
    match asteroids g !! i with
    | None => asteroid_loop i g
    | Some ast =>
      let ast := advance ast in
      let g := set_asteroids g (<[i := ast]> (asteroids g)) in
      if off_screen (height g) ast
      then asteroid_loop i (set_asteroids g (delete i (asteroids g)))
      else if crashed (player g) ast
      then (endGame g, true)
      else asteroid_loop i g
    end
  end.

(** The state in which the loop over the asteroids starts. *)
Definition before_asteroids (d : Draws) (g : Game) : Game :=
  spawn_asteroids d
    (update_trail (create_trail (boundary_checks (move_player (increase_score g))))).

Definition update (d : Draws) (g : Game) : Game :=
  if negb (gameActive g) then g
  else
    let g := before_asteroids d g in
    let '(g, returned) := asteroid_loop (length (asteroids g)) g in
    if returned then g
    else set_frameCount g (frameCount g + 1).

(** The end of [update], from the loop over the asteroids on (lines
    129-151), and the state in which [update] reaches line 119. *)
Definition collide_and_count (g : Game) : Game :=
  let '(g, returned) := asteroid_loop (length (asteroids g)) g in
  if returned then g
  else set_frameCount g (frameCount g + 1).

Definition before_spawn (g : Game) : Game :=
  update_trail (create_trail (boundary_checks (move_player (increase_score g)))).

(** [draw] reads the state and paints the canvas; it changes none of the
    variables.  [gameLoop] runs one frame and requests the next one. *)
Definition requestAnimationFrame (g : Game) : Game * nat :=
  (set_raf g (rafPending g ++ [rafNext g]) (S (rafNext g)), rafNext g).

Definition gameLoop (d : Draws) (g : Game) : Game :=
  if negb (gameActive g) then g
  else
    let g := update d g in
    let '(g, h) := requestAnimationFrame g in
    set_animationId g (Some h).

(** [startGame], up to the call of [gameLoop] (lines 216-232). *)
Definition reset_game (win : Window) (g : Game) : Game :=
  let g := set_score g 0 in
  let g := set_frameCount g 0 in
  let g := set_asteroids g [] in
  let g := set_player g (set_trail (player g) []) in
  let g := resizeGame win g in
  let g := set_player g (set_x (player g) (width g / 2)) in
  let g := set_player g (set_y (player g) (height g - 100)) in
  let g := set_mouse g (width g / 2) (height g - 100) in
  let g := set_page g (set_startScreen_hidden (page g) true) in
  let g := set_page g (set_gameOverScreen (page g) true
                         (gameOverScreen_flex (page g))) in
  let g := set_page g (set_scoreEl (page g) "0") in
  set_gameActive g true.

Definition startGame (win : Window) (d : Draws) (g : Game) : Game :=
  gameLoop d (reset_game win g).

(** ** Event listeners *)

(** What the browser can deliver to the closure once it is set up.  A
    click on the play or the restart button runs [startGame], which runs
    the first frame itself and so consumes a set of random draws.  The
    two timers of the open and close buttons are events of their own. *)
Inductive Event :=
| StartBtnClick
| StartBtnTimeout (win : Window)
| CloseBtnClick
| CloseBtnTimeout
| MouseMove (clientX clientY rect_left rect_top : Q)
| TouchMove (clientX clientY rect_left rect_top : Q)
| PlayBtnClick (win : Window) (d : Draws)
| RestartBtnClick (win : Window) (d : Draws)
| WindowResize (win : Window)
| AnimationFrame (d : Draws).

Definition dispatch (g : Game) (e : Event) : Game :=
  match e with
  | StartBtnClick =>
      set_page g (set_modal (page g) false (modal_visible (page g)))
  | StartBtnTimeout win =>
      resizeGame win (set_page g (set_modal (page g) (modal_hidden (page g)) true))
  | CloseBtnClick =>
      let g := set_gameActive g false in
      set_page g (set_modal (page g) (modal_hidden (page g)) false)
  | CloseBtnTimeout =>
      let g := set_page g (set_modal (page g) true (modal_visible (page g))) in
      let g := set_page g (set_startScreen_hidden (page g) false) in
      set_page g (set_gameOverScreen (page g) true false)
  | MouseMove clientX clientY rect_left rect_top
  | TouchMove clientX clientY rect_left rect_top =>
      set_mouse g (clientX - rect_left) (clientY - rect_top)
  | PlayBtnClick win d
  | RestartBtnClick win d => startGame win d g
  | WindowResize win => resizeGame win g
  | AnimationFrame d =>
      match rafPending g with
      | [] => g
      | _ :: pending => gameLoop d (set_raf g pending (rafNext g))
      end
  end.

(** A run of events, delivered one after the other. *)
Definition run (g : Game) (events : list Event) : Game :=
  foldl dispatch g events.

(** ** Initialisation of the closure *)

(** Which of the elements looked up by id exist in the document. *)
Record Document := mkDocument {
  has_modal : bool;
  has_startBtn : bool;
  has_closeBtn : bool;
  has_canvas : bool;
  has_scoreEl : bool;
  has_finalScoreEl : bool;
  has_startScreen : bool;
  has_gameOverScreen : bool;
  has_playBtn : bool;
  has_restartBtn : bool
}.

Inductive Listener :=
| startBtn_click
| closeBtn_click
| canvas_mousemove
| canvas_touchmove
| playBtn_click
| restartBtn_click
| window_resize.

(** The values of the [let] and [const] declarations of lines 22-46. *)
Definition initial_game (pg : Page) : Game :=
  let width := 800 in
  let height := 600 in
  {| animationId := None;
     score := 0;
     gameActive := false;
     frameCount := 0;
     width := width;
     height := height;
     player := {| player_x := width / 2;
                  player_y := height - 100;
                  player_size := 20;
                  player_color := "#4D4FFF";
                  player_trail := [] |};
     asteroids := [];
     mouseX := width / 2;
     mouseY := height - 100;
     page := pg;
     rafPending := [];
     rafNext := 0 |}.

(** The body of the closure either returns at line 19, or runs to its
    end, or stops with a [TypeError] where it calls [addEventListener] on
    [null]; the listeners attached up to there stay attached. *)
Inductive InitResult :=
| Declined
| Activated (listeners : list Listener) (g : Game)
| TypeError (listeners : list Listener) (g : Game).

Definition init (doc : Document) (pg : Page) : InitResult :=
  if negb (has_canvas doc) || negb (has_modal doc) then Declined
  else
    let g := initial_game pg in
    let ls := [] in
    let ls := if has_startBtn doc then ls ++ [startBtn_click] else ls in
    let ls := if has_closeBtn doc then ls ++ [closeBtn_click] else ls in
    let ls := ls ++ [canvas_mousemove] in
    let ls := ls ++ [canvas_touchmove] in
    if negb (has_playBtn doc) then TypeError ls g
    else
      let ls := ls ++ [playBtn_click] in
      if negb (has_restartBtn doc) then TypeError ls g
      else
        let ls := ls ++ [restartBtn_click] in
        let ls := ls ++ [window_resize] in
        Activated ls g.

(** The elements [startGame] dereferences without a test (lines
    228-230): with one of them missing the click on play stops with a
    [TypeError]. *)
Definition startGame_throws (doc : Document) : bool :=
  negb (has_startScreen doc) || negb (has_gameOverScreen doc)
  || negb (has_scoreEl doc).

(** ** What the loops compute *)

(** A particle survives a pass when the alpha it is left with is
    positive. *)
Definition faded (p : TrailParticle) : bool := Qleb (p_alpha p) 0.

Definition age_all (trail : list TrailParticle) : list TrailParticle :=
  List.filter (fun p => negb (faded p)) (map age_particle trail).

(** An asteroid is hit when, once advanced, it is still on the screen
    and within reach of the player. *)
Definition hit (h : Q) (p : Player) (ast : Asteroid) : bool :=
  negb (off_screen h (advance ast)) && crashed p (advance ast).

Definition advance_all (h : Q) (l : list Asteroid) : list Asteroid :=
  List.filter (fun ast => negb (off_screen h ast)) (map advance l).

(** The events that begin a session. *)
Definition starts_session (e : Event) : bool :=
  match e with
  | PlayBtnClick _ _ | RestartBtnClick _ _ => true
  | _ => false
  end.



(** The loop as the specification words it: the asteroids are taken in
    insertion order, oldest first, and the first one found to collide
    ends the session, the later ones being left as they are. *)
Fixpoint insertion_order_loop (h : Q) (p : Player) (l : list Asteroid)
    : list Asteroid * bool :=
  match l with
  | [] => ([], false)
  | ast :: rest =>
    let ast := advance ast in
    if off_screen h ast then insertion_order_loop h p rest
    else if crashed p ast then (ast :: rest, true)
    else let '(rest, stop) := insertion_order_loop h p rest in
         (ast :: rest, stop)
  end.

(** The relation the counters keep: equal while the game runs, the
    score at most one ahead otherwise. *)
Definition counters_agree (g : Game) : Prop :=
  (0 <= frameCount g <= score g)%Z
  /\ (score g <= frameCount g + 1)%Z
  /\ (gameActive g = true -> score g = frameCount g).

(** A run of calls of [update], one set of draws per call. *)
Definition ticks (g : Game) (ds : list Draws) : Game :=
  foldl (fun g d => update d g) g ds.

(** ** The fading of a particle in binary64 *)

(** The alpha of a particle after [k] passes of the trail loop, in the
    arithmetic of JavaScript: it starts at [1] (line 108) and each pass
    runs [p.alpha -= 0.05] (line 115); the particle is spliced out when
    [p.alpha <= 0] (line 116). *)
#[warnings="-inexact-float"]
Definition alpha_binary64 (k : nat) : float :=
  Nat.iter k (fun alpha => (alpha - 0.05)%float) 1%float.

Definition faded_binary64 (alpha : float) : bool := (alpha <=? 0)%float.

(** ** The arithmetic of the source, rounded *)

(** A JavaScript number is a binary64 float and every operation of the
    source rounds its result.  The definitions below are the functions
    of [update] once more, with [rnd] around every arithmetic operation
    and around every decimal literal; integers are left as they are
    written.  [hypot] stands for [Math.hypot], whose result the language
    leaves to the implementation. *)


Module Rounded.
Section Arithmetic.

Variable rnd : Q -> Q.
Variable hypot : Q -> Q -> Q.

Definition new_asteroid (d : Draws) (width : Q) (score : Z) : Asteroid :=
  let size := rnd (rnd (r_size d * 25) + 10) in
  let x := rnd (r_x d * rnd (width - size)) in
  let speed :=
    rnd (rnd (rnd (r_speed d * 3) + 2) + rnd (inject_Z score * rnd 0.005)) in
  {| ast_x := x;
     ast_y := - size;
     ast_size := size;
     ast_speed := speed;
     ast_color :=
       color_at (Math_floor
                   (rnd (r_color d * inject_Z (Z.of_nat (length asteroidColors)))));
     ast_rotation := rnd (r_rotation d * Math_PI);
     ast_rotSpeed := rnd (rnd (r_rotSpeed d - rnd 0.5) * rnd 0.1) |}.

Definition spawnAsteroid (d : Draws) (g : Game) : Game :=
  set_asteroids g (asteroids g ++ [new_asteroid d (width g) (score g)]).

Definition endGame (g : Game) : Game :=
  let g := set_gameActive g false in
  let g := cancelAnimationFrame (animationId g) g in
  let g := set_page g (set_finalScoreEl (page g)
             (String_of_number (Math_floor (rnd (inject_Z (score g) / 10))))) in
  set_page g (set_gameOverScreen (page g) false true).

Definition increase_score (g : Game) : Game :=
  let g := set_score g (score g + 1) in
  set_page g (set_scoreEl (page g)
    (String_of_number (Math_floor (rnd (inject_Z (score g) / 10))))).

Definition move_player (g : Game) : Game :=
  let dx := rnd (mouseX g - player_x (player g)) in
  let dy := rnd (mouseY g - player_y (player g)) in
  let p := set_x (player g) (rnd (player_x (player g) + rnd (dx * rnd 0.15))) in
  let p := set_y p (rnd (player_y p + rnd (dy * rnd 0.15))) in
  set_player g p.

Definition boundary_checks (g : Game) : Game :=
  let p := player g in
  let p := if Qltb (player_x p) (player_size p)
           then set_x p (player_size p) else p in
  let p := if Qltb (rnd (width g - player_size p)) (player_x p)
           then set_x p (rnd (width g - player_size p)) else p in
  let p := if Qltb (player_y p) (player_size p)
           then set_y p (player_size p) else p in
  let p := if Qltb (rnd (height g - player_size p)) (player_y p)
           then set_y p (rnd (height g - player_size p)) else p in
  set_player g p.

Definition new_particle (p : Player) : TrailParticle :=
  {| p_x := player_x p;
     p_y := rnd (player_y p + 15);
     p_radius := rnd (player_size p / 2);
     p_alpha := 1 |}.

Definition create_trail (g : Game) : Game :=
  if (Z.rem (frameCount g) 3 =? 0)%Z
  then set_player g
         (set_trail (player g) (player_trail (player g) ++ [new_particle (player g)]))
  else g.

Definition age_particle (p : TrailParticle) : TrailParticle :=
  {| p_x := p_x p;
     p_y := rnd (p_y p + 2);
     p_radius := p_radius p;
     p_alpha := rnd (p_alpha p - rnd 0.05) |}.

Fixpoint trail_loop (n : nat) (trail : list TrailParticle) : list TrailParticle :=
  match n with
  | O => trail
  | S i =>
    match trail !! i with
    | None => trail_loop i trail
    | Some p =>
      let p := age_particle p in
      let trail := <[i := p]> trail in
      if Qleb (p_alpha p) 0
      then trail_loop i (delete i trail)
      else trail_loop i trail
    end
  end.

Definition update_trail (g : Game) : Game :=
  let trail := player_trail (player g) in
  set_player g (set_trail (player g) (trail_loop (length trail) trail)).

Definition spawn_asteroids (d : Draws) (g : Game) : Game :=
  if (Z.rem (frameCount g) (spawnRate (score g)) =? 0)%Z
  then spawnAsteroid d g
  else g.

Definition advance (ast : Asteroid) : Asteroid :=
  {| ast_x := ast_x ast;
     ast_y := rnd (ast_y ast + ast_speed ast);
     ast_size := ast_size ast;
     ast_speed := ast_speed ast;
     ast_color := ast_color ast;
     ast_rotation := rnd (ast_rotation ast + ast_rotSpeed ast);
     ast_rotSpeed := ast_rotSpeed ast |}.

Definition off_screen (height : Q) (ast : Asteroid) : bool :=
  Qltb (rnd (height + ast_size ast)) (ast_y ast).

(** Line 141 and the two sides of the test of line 144. *)
Definition dist (p : Player) (ast : Asteroid) : Q :=
  hypot (rnd (player_x p - ast_x ast)) (rnd (player_y p - ast_y ast)).

Definition reach (p : Player) (ast : Asteroid) : Q :=
  rnd (rnd (player_size p + ast_size ast) - 5).

Definition crashed (p : Player) (ast : Asteroid) : bool :=
  Qltb (dist p ast) (reach p ast).

Fixpoint asteroid_loop (n : nat) (g : Game) : Game * bool :=
  match n with
  | O => (g, false)
  | S i =>
    match asteroids g !! i with
    | None => asteroid_loop i g
    | Some ast =>
      let ast := advance ast in
      let g := set_asteroids g (<[i := ast]> (asteroids g)) in
      if off_screen (height g) ast
      then asteroid_loop i (set_asteroids g (delete i (asteroids g)))
      else if crashed (player g) ast
      then (endGame g, true)
      else asteroid_loop i g
    end
  end.

Definition before_asteroids (d : Draws) (g : Game) : Game :=
  spawn_asteroids d
    (update_trail (create_trail (boundary_checks (move_player (increase_score g))))).

Definition update (d : Draws) (g : Game) : Game :=
  if negb (gameActive g) then g
  else
    let g := before_asteroids d g in
    let '(g, returned) := asteroid_loop (length (asteroids g)) g in
    if returned then g
    else set_frameCount g (frameCount g + 1).

(** What the loop over the asteroids computes when nothing is hit, and
    the test that ends it. *)
Definition hit (h : Q) (p : Player) (ast : Asteroid) : bool :=
  negb (off_screen h (advance ast)) && crashed p (advance ast).

Definition advance_all (h : Q) (l : list Asteroid) : list Asteroid :=
  List.filter (fun ast => negb (off_screen h ast)) (map advance l).

End Arithmetic.
End Rounded.

(** *** Binary64 *)

(** Rounding to the nearest binary64 number, ties to the even mantissa:
    53 bits of mantissa, the exponent not below the one of the subnormal
    numbers.  Infinities and NaN have no rational and are not
    modelled; no value of the game comes near [2 ^ 1024]. *)

(** The integer part of the binary logarithm of a positive rational. *)
Definition ilog2 (q : Q) : Z :=
  let e := (Z.log2 (Qnum q) - Z.log2 (Zpos (Qden q)))%Z in
  if Qle_bool (2 ^ e) q then e else (e - 1)%Z.

Definition round_half_even (x : Q) : Z :=
  let f := Qfloor x in
  match Qcompare (x - inject_Z f) (1 # 2) with
  | Lt => f
  | Gt => (f + 1)%Z
  | Eq => if Z.even f then f else (f + 1)%Z
  end.

(** The exponent of the last bit of a positive number, and the rounding
    of a positive number to a multiple of it. *)
Definition quantum (q : Q) : Z := Z.max (ilog2 q - 52) (-1074).

Definition round_positive (q : Q) : Q :=
  let e := quantum q in
  inject_Z (round_half_even (q / 2 ^ e)) * 2 ^ e.

Definition binary64 (q : Q) : Q :=
  Qred match Qnum q with
       | Z0 => 0
       | Zpos _ => round_positive q
       | Zneg _ => - round_positive (- q)
       end.

(** The square root, rounded to the nearest binary64 number, and the
    Euclidean norm rounded once: the most accurate [Math.hypot] can be.
    Implementations may differ from it in the last place; they agree
    with it when one of the arguments is 0. *)
Definition Math_sqrt64 (q : Q) : Q :=
  if Qle_bool q 0 then 0
  else
    let e := (ilog2 q / 2 - 52)%Z in
    let t := q / (2 ^ e * 2 ^ e) in
    let m := Z.sqrt (Qfloor t) in
    let half := inject_Z (2 * m + 1) in
    let m := match Qcompare (half * half) (4 * t) with
             | Lt => (m + 1)%Z
             | Gt => m
             | Eq => if Z.even m then m else (m + 1)%Z
             end in
    Qred (inject_Z m * 2 ^ e).

Definition hypot_nearest (dx dy : Q) : Q := Math_sqrt64 (dx * dx + dy * dy).

(** The rational a primitive float stands for. *)
Definition Q_of_float (x : float) : Q :=
  match Prim2SF x with
  | S754_finite s m e => Qred (inject_Z (if s then Zneg m else Zpos m) * 2 ^ e)
  | _ => 0
  end.

(** ** Sample inputs *)

Definition blank_page : Page :=
  {| scoreEl_innerText := "0";
     finalScoreEl_innerText := "0";
     startScreen_hidden := false;
     gameOverScreen_hidden := true;
     gameOverScreen_flex := false;
     modal_hidden := true;
     modal_visible := false |}.

Definition desktop : Window := {| innerWidth := 1280; innerHeight := 800 |}.

Definition sample_draws : Draws :=
  {| r_size := 0.4; r_x := 0.5; r_speed := 0.5; r_color := 0.3;
     r_rotation := 0.25; r_rotSpeed := 0.75 |}.

Definition narrow : Window := {| innerWidth := 20; innerHeight := 800 |}.

Definition wide_draws : Draws :=
  {| r_size := 0.8; r_x := 0.5; r_speed := 0.5; r_color := 0.3;
     r_rotation := 0.25; r_rotSpeed := 0.75 |}.

(** Two asteroids over the player of a fresh session, the older one
    first, on a frame that spawns nothing. *)
Definition older : Asteroid :=
  {| ast_x := 400; ast_y := 490; ast_size := 20; ast_speed := 10;
     ast_color := Some "#FFD700"; ast_rotation := 0; ast_rotSpeed := 0 |}.

Definition newer : Asteroid :=
  {| ast_x := 400; ast_y := 480; ast_size := 20; ast_speed := 10;
     ast_color := Some "#ff5555"; ast_rotation := 0; ast_rotSpeed := 0 |}.

Definition two_overhead : Game :=
  set_frameCount
    (set_asteroids (reset_game desktop (initial_game blank_page)) [older; newer])
    1.

Definition full_document : Document :=
  {| has_modal := true; has_startBtn := true; has_closeBtn := true;
     has_canvas := true; has_scoreEl := true; has_finalScoreEl := true;
     has_startScreen := true; has_gameOverScreen := true;
     has_playBtn := true; has_restartBtn := true |}.

Definition without_playBtn : Document :=
  {| has_modal := true; has_startBtn := true; has_closeBtn := true;
     has_canvas := true; has_scoreEl := true; has_finalScoreEl := true;
     has_startScreen := true; has_gameOverScreen := true;
     has_playBtn := false; has_restartBtn := true |}.

Definition without_scoreEl : Document :=
  {| has_modal := true; has_startBtn := true; has_closeBtn := true;
     has_canvas := true; has_scoreEl := false; has_finalScoreEl := true;
     has_startScreen := true; has_gameOverScreen := true;
     has_playBtn := true; has_restartBtn := true |}.

Definition three_events : list Event :=
  [AnimationFrame sample_draws; MouseMove 410 300 10 20;
   AnimationFrame sample_draws].

(** The largest draw [Math.random()] can return, [1 - 2 ^ -53]. *)
Definition last_draws : Draws :=
  {| r_size := 1 - 2 ^ (-53); r_x := 0.5; r_speed := 1 - 2 ^ (-53);
     r_color := 0.25; r_rotation := 0.25; r_rotSpeed := 0.75 |}.

Definition half_draws : Draws :=
  {| r_size := 0.5; r_x := 0.5; r_speed := 0.5; r_color := 0.25;
     r_rotation := 0.25; r_rotSpeed := 0.75 |}.

(** An asteroid straight above the player of a fresh session, on a frame
    that spawns nothing.  Its size is a number [Math.random() * 25 + 10]
    can return (draw [(2 ^ 54 + 16) / 25 / 2 ^ 53]); after its move the
    centres are 27 apart. *)
Definition grazing_size : Q := 12 + 2 ^ (-49).



(** * Properties *)

(** ** Numbers *)

Lemma Qltb_lt (a b : Q) : Qltb a b = true <-> a < b.
Proof.
  unfold Qltb. rewrite negb_true_iff. split.
  - intros H. apply Qnot_le_lt. intros Hle.
    apply Qle_bool_iff in Hle. congruence.
  - intros H. destruct (Qle_bool b a) eqn:E; [|reflexivity].
    apply Qle_bool_iff in E. lra.
Qed.

Lemma Qltb_ge (a b : Q) : Qltb a b = false <-> b <= a.
Proof.
  unfold Qltb. rewrite negb_false_iff. apply Qle_bool_iff.
Qed.


Lemma Qleb_gt (a b : Q) : Qleb a b = false <-> b < a.
Proof.
  rewrite <- Qltb_lt. unfold Qltb, Qleb.
  destruct (Qle_bool a b); simpl; intuition congruence.
Qed.


(** [Math.floor(score / 10)] is the integer quotient. *)
Lemma floor_tenth (n : Z) : Math_floor (inject_Z n / 10) = (n / 10)%Z.
Proof.
  unfold Math_floor, Qfloor, Qdiv, Qmult, Qinv, inject_Z. simpl.
  rewrite Z.mul_1_r. reflexivity.
Qed.

(** ** The two loops that splice while they iterate *)

Lemma insert_middle {A} (l1 l2 : list A) (x y : A) :
  <[length l1 := y]> (l1 ++ x :: l2) = l1 ++ y :: l2.
Proof.
  rewrite insert_app_r_alt, Nat.sub_diag by lia. reflexivity.
Qed.

Lemma trail_loop_S (i : nat) (trail : list TrailParticle) :
  trail_loop (S i) trail
  = match trail !! i with
    | None => trail_loop i trail
    | Some p =>
      if faded (age_particle p)
      then trail_loop i (delete i (<[i := age_particle p]> trail))
      else trail_loop i (<[i := age_particle p]> trail)
    end.
Proof. reflexivity. Qed.

(** The iterations [i = length l1 - 1, ..., 0] age the particles of
    [l1], drop the faded ones and leave the rest of the array alone. *)
Lemma trail_loop_app (l1 l2 : list TrailParticle) :
  trail_loop (length l1) (l1 ++ l2) = age_all l1 ++ l2.
Proof.
  revert l2. induction l1 as [|p l1 IH] using rev_ind; intros l2.
  - reflexivity.
  - rewrite length_app, Nat.add_1_r, trail_loop_S, <- app_assoc.
    change ([p] ++ l2) with (p :: l2).
    rewrite list_lookup_middle, insert_middle by reflexivity.
    unfold age_all. rewrite map_app, List.filter_app.
    change (List.filter (fun q => negb (faded q)) (map age_particle [p]))
      with (if negb (faded (age_particle p)) then [age_particle p] else []).
    fold (age_all l1).
    destruct (faded (age_particle p)); cbn [negb].
    + rewrite delete_middle, IH, app_nil_r. reflexivity.
    + rewrite IH, <- app_assoc. reflexivity.
Qed.

Lemma trail_loop_all (trail : list TrailParticle) :
  trail_loop (length trail) trail = age_all trail.
Proof.
  rewrite <- (app_nil_r trail) at 2.
  rewrite trail_loop_app, app_nil_r. reflexivity.
Qed.

Lemma advance_all_snoc (h : Q) (l : list Asteroid) (a : Asteroid) :
  advance_all h (l ++ [a])
  = advance_all h l ++ (if off_screen h (advance a) then [] else [advance a]).
Proof.
  unfold advance_all. rewrite map_app, List.filter_app. simpl.
  destruct (off_screen h (advance a)); reflexivity.
Qed.

Lemma set_asteroids_same (g : Game) : set_asteroids g (asteroids g) = g.
Proof. destruct g. reflexivity. Qed.

Lemma asteroid_loop_S (i : nat) (g : Game) :
  asteroid_loop (S i) g
  = match asteroids g !! i with
    | None => asteroid_loop i g
    | Some ast =>
      if off_screen (height g) (advance ast)
      then asteroid_loop i
             (set_asteroids g (delete i (<[i := advance ast]> (asteroids g))))
      else if crashed (player g) (advance ast)
      then (endGame (set_asteroids g (<[i := advance ast]> (asteroids g))), true)
      else asteroid_loop i (set_asteroids g (<[i := advance ast]> (asteroids g)))
    end.
Proof. reflexivity. Qed.

(** Without a hit among [l1], the iterations over [l1] advance its
    asteroids and drop those that left the screen. *)
Lemma asteroid_loop_miss (l1 l2 : list Asteroid) (g : Game) :
  asteroids g = l1 ++ l2 ->
  Forall (fun ast => hit (height g) (player g) ast = false) l1 ->
  asteroid_loop (length l1) g
  = (set_asteroids g (advance_all (height g) l1 ++ l2), false).
Proof.
  revert l2 g. induction l1 as [|a l1 IH] using rev_ind; intros l2 g Hg Hmiss.
  - simpl in *. rewrite <- Hg, set_asteroids_same. reflexivity.
  - apply Forall_app in Hmiss as [Hmiss Ha].
    apply Forall_inv in Ha. unfold hit in Ha.
    rewrite length_app, Nat.add_1_r, asteroid_loop_S, Hg, <- app_assoc.
    change ([a] ++ l2) with (a :: l2).
    rewrite list_lookup_middle, insert_middle by reflexivity.
    rewrite advance_all_snoc.
    destruct (off_screen (height g) (advance a)); cbn [negb andb] in Ha.
    + rewrite delete_middle, app_nil_r.
      rewrite (IH l2) by (try reflexivity; exact Hmiss).
      reflexivity.
    + rewrite Ha.
      rewrite (IH (advance a :: l2)) by (try reflexivity; exact Hmiss).
      rewrite <- app_assoc. reflexivity.
Qed.

(** With a hit, the loop stops at the hit of highest index: the
    asteroids above it have been advanced and filtered, the asteroid
    itself has been advanced, the ones below are as they were, and
    [endGame] has run. *)
Lemma asteroid_loop_hit (pre post l2 : list Asteroid) (a : Asteroid) (g : Game) :
  asteroids g = pre ++ a :: post ++ l2 ->
  hit (height g) (player g) a = true ->
  Forall (fun ast => hit (height g) (player g) ast = false) post ->
  asteroid_loop (length (pre ++ a :: post)) g
  = (endGame (set_asteroids g
       (pre ++ advance a :: advance_all (height g) post ++ l2)), true).
Proof.
  revert l2 g. induction post as [|b post IH] using rev_ind;
    intros l2 g Hg Ha Hmiss.
  - rewrite length_app. cbn [length]. rewrite Nat.add_1_r, asteroid_loop_S, Hg.
    change ([] ++ l2) with l2.
    rewrite list_lookup_middle, insert_middle by reflexivity.
    unfold hit in Ha. apply andb_true_iff in Ha as [Hon Hcr].
    apply negb_true_iff in Hon. rewrite Hon, Hcr. reflexivity.
  - apply Forall_app in Hmiss as [Hmiss Hb].
    apply Forall_inv in Hb. unfold hit in Hb.
    assert (Hg' : asteroids g = (pre ++ a :: post) ++ b :: l2)
      by (rewrite Hg, <- !app_assoc; reflexivity).
    replace (pre ++ a :: post ++ [b]) with ((pre ++ a :: post) ++ [b])
      by (rewrite <- app_assoc; reflexivity).
    rewrite (length_app (pre ++ a :: post)). cbn [length].
    rewrite Nat.add_1_r, asteroid_loop_S, Hg'.
    rewrite list_lookup_middle, insert_middle by reflexivity.
    rewrite advance_all_snoc.
    destruct (off_screen (height g) (advance b)); cbn [negb andb] in Hb.
    + rewrite delete_middle, app_nil_r.
      rewrite (IH l2) by (try assumption; rewrite <- app_assoc; reflexivity).
      reflexivity.
    + rewrite Hb.
      rewrite (IH (advance b :: l2))
        by (try assumption; rewrite <- app_assoc; reflexivity).
      rewrite <- !app_assoc. reflexivity.
Qed.

(** A list either has no hit, or splits at its last hit. *)
Lemma last_hit (f : Asteroid -> bool) (l : list Asteroid) :
  Forall (fun a => f a = false) l
  \/ exists pre a post,
       l = pre ++ a :: post /\ f a = true /\ Forall (fun b => f b = false) post.
Proof.
  induction l as [|a l IH].
  - left. constructor.
  - destruct IH as [IH | (pre & b & post & -> & Hb & Hpost)].
    + destruct (f a) eqn:Ha.
      * right. exists [], a, l. auto.
      * left. constructor; assumption.
    + right. exists (a :: pre), b, post. auto.
Qed.

(** ** One call of [update] *)

(** What the first part of [update] does to each variable. *)
Lemma before_asteroids_score (d : Draws) (g : Game) :
  score (before_asteroids d g) = (score g + 1)%Z.
Proof.
  unfold before_asteroids, spawn_asteroids, spawnAsteroid, update_trail, create_trail.
  repeat match goal with |- context [if ?c then _ else _] => destruct c end;
    reflexivity.
Qed.

Lemma before_asteroids_frameCount (d : Draws) (g : Game) :
  frameCount (before_asteroids d g) = frameCount g.
Proof.
  unfold before_asteroids, spawn_asteroids, spawnAsteroid, update_trail, create_trail.
  repeat match goal with |- context [if ?c then _ else _] => destruct c end;
    reflexivity.
Qed.

Lemma before_asteroids_gameActive (d : Draws) (g : Game) :
  gameActive (before_asteroids d g) = gameActive g.
Proof.
  unfold before_asteroids, spawn_asteroids, spawnAsteroid, update_trail, create_trail.
  repeat match goal with |- context [if ?c then _ else _] => destruct c end;
    reflexivity.
Qed.

Lemma before_asteroids_dimensions (d : Draws) (g : Game) :
  width (before_asteroids d g) = width g
  /\ height (before_asteroids d g) = height g.
Proof.
  unfold before_asteroids, spawn_asteroids, spawnAsteroid, update_trail, create_trail.
  repeat match goal with |- context [if ?c then _ else _] => destruct c end;
    split; reflexivity.
Qed.

Lemma before_asteroids_page (d : Draws) (g : Game) :
  page (before_asteroids d g)
  = set_scoreEl (page g)
      (String_of_number (Math_floor (inject_Z (score g + 1) / 10))).
Proof.
  unfold before_asteroids, spawn_asteroids, spawnAsteroid, update_trail, create_trail.
  repeat match goal with |- context [if ?c then _ else _] => destruct c end;
    reflexivity.
Qed.

Lemma spawn_asteroids_player (d : Draws) (g : Game) :
  player (spawn_asteroids d g) = player g.
Proof.
  unfold spawn_asteroids. destruct (Z.rem _ _ =? 0)%Z; reflexivity.
Qed.

Lemma create_trail_position (g : Game) :
  player_x (player (create_trail g)) = player_x (player g)
  /\ player_y (player (create_trail g)) = player_y (player g)
  /\ player_size (player (create_trail g)) = player_size (player g).
Proof.
  unfold create_trail. destruct (Z.rem _ _ =? 0)%Z; repeat split; reflexivity.
Qed.

Lemma boundary_checks_size (g : Game) :
  player_size (player (boundary_checks g)) = player_size (player g).
Proof.
  unfold boundary_checks. cbn [player set_player].
  repeat match goal with |- context [if ?c then _ else _] => destruct c end;
    reflexivity.
Qed.

(** The position of the player is settled by the boundary checks. *)
Lemma before_asteroids_position (d : Draws) (g : Game) :
  let p := player (boundary_checks (move_player (increase_score g))) in
  player_x (player (before_asteroids d g)) = player_x p
  /\ player_y (player (before_asteroids d g)) = player_y p
  /\ player_size (player (before_asteroids d g)) = player_size (player g).
Proof.
  intros p. unfold before_asteroids. rewrite spawn_asteroids_player.
  pose proof (boundary_checks_size (move_player (increase_score g))) as Hsize.
  fold p in Hsize. change (player_size p = player_size (player g)) in Hsize.
  unfold p in *. clear p.
  revert Hsize.
  generalize (boundary_checks (move_player (increase_score g))) as g2.
  intros g2 Hsize.
  destruct (create_trail_position g2) as (Hx & Hy & Hs).
  change (player_x (player (update_trail (create_trail g2))))
    with (player_x (player (create_trail g2))).
  change (player_y (player (update_trail (create_trail g2))))
    with (player_y (player (create_trail g2))).
  change (player_size (player (update_trail (create_trail g2))))
    with (player_size (player (create_trail g2))).
  rewrite Hx, Hy, Hs, Hsize. repeat split; reflexivity.
Qed.

Lemma before_asteroids_trail (d : Draws) (g : Game) :
  player_trail (player (before_asteroids d g))
  = age_all
      (player_trail (player g)
       ++ (if (Z.rem (frameCount g) 3 =? 0)%Z
           then [new_particle
                   (player (boundary_checks (move_player (increase_score g))))]
           else [])).
Proof.
  unfold before_asteroids, spawn_asteroids, spawnAsteroid, update_trail.
  assert (Htrail : forall g0, player_trail (player (boundary_checks (move_player (increase_score g0))))
                     = player_trail (player g0)).
  { intros g0. unfold boundary_checks, move_player, increase_score.
    cbn -[Qltb Qplus Qminus Qmult].
    repeat match goal with |- context [if ?c then _ else _] => destruct c end;
      reflexivity. }
  assert (Hfc : forall g0, frameCount (boundary_checks (move_player (increase_score g0)))
                  = frameCount g0) by reflexivity.
  set (g2 := boundary_checks (move_player (increase_score g))).
  assert (Hcreate : player_trail (player (create_trail g2))
                    = player_trail (player g)
                      ++ (if (Z.rem (frameCount g) 3 =? 0)%Z
                          then [new_particle (player g2)] else [])).
  { unfold create_trail. unfold g2 at 1 4. rewrite Hfc.
    destruct (Z.rem (frameCount g) 3 =? 0)%Z.
    - cbn [player set_player player_trail set_trail]. unfold g2.
      rewrite Htrail. reflexivity.
    - unfold g2. rewrite Htrail, app_nil_r. reflexivity. }
  destruct (Z.rem _ (spawnRate _) =? 0)%Z;
    cbn [player set_player set_asteroids player_trail set_trail];
    rewrite trail_loop_all, Hcreate; reflexivity.
Qed.

Lemma before_asteroids_asteroids (d : Draws) (g : Game) :
  asteroids (before_asteroids d g)
  = if (Z.rem (frameCount g) (spawnRate (score g + 1)) =? 0)%Z
    then asteroids g ++ [new_asteroid d (width g) (score g + 1)]
    else asteroids g.
Proof.
  unfold before_asteroids, spawn_asteroids, spawnAsteroid.
  set (g3 := update_trail _).
  assert (H3 : frameCount g3 = frameCount g /\ score g3 = (score g + 1)%Z
               /\ asteroids g3 = asteroids g /\ width g3 = width g).
  { unfold g3, update_trail, create_trail.
    destruct (Z.rem _ 3 =? 0)%Z; repeat split; reflexivity. }
  destruct H3 as (-> & -> & Ha & Hw).
  destruct (Z.rem _ _ =? 0)%Z; cbn [asteroids set_asteroids];
    rewrite ?Ha, ?Hw; reflexivity.
Qed.

(** The two ways a running call of [update] ends: no asteroid is hit
    and the frame counter goes up, or [endGame] runs at the hit of
    highest index and [update] returns from there. *)
Lemma update_cases (d : Draws) (g : Game) :
  gameActive g = true ->
  let g1 := before_asteroids d g in
  let is_hit := hit (height g1) (player g1) in
  (Forall (fun a => is_hit a = false) (asteroids g1)
   /\ update d g
      = set_frameCount
          (set_asteroids g1 (advance_all (height g1) (asteroids g1)))
          (frameCount g1 + 1))
  \/ (exists pre a post,
        asteroids g1 = pre ++ a :: post
        /\ is_hit a = true
        /\ Forall (fun b => is_hit b = false) post
        /\ update d g
           = endGame (set_asteroids g1
                        (pre ++ advance a :: advance_all (height g1) post))).
Proof.
  intros Hactive g1 is_hit. unfold update. rewrite Hactive. cbn [negb].
  fold g1.
  destruct (last_hit is_hit (asteroids g1))
    as [Hmiss | (pre & a & post & Hg & Ha & Hmiss)].
  - left. split; [exact Hmiss|].
    rewrite (asteroid_loop_miss (asteroids g1) [] g1)
      by (rewrite ?app_nil_r; auto).
    rewrite app_nil_r. reflexivity.
  - right. exists pre, a, post. repeat split; try assumption.
    rewrite Hg.
    rewrite (asteroid_loop_hit pre post [] a g1)
      by (rewrite ?app_nil_r; auto).
    rewrite app_nil_r. reflexivity.
Qed.

Lemma endGame_fields (g : Game) :
  gameActive (endGame g) = false
  /\ gameOverScreen_hidden (page (endGame g)) = false
  /\ score (endGame g) = score g
  /\ frameCount (endGame g) = frameCount g
  /\ asteroids (endGame g) = asteroids g
  /\ player (endGame g) = player g
  /\ width (endGame g) = width g
  /\ height (endGame g) = height g
  /\ scoreEl_innerText (page (endGame g)) = scoreEl_innerText (page g)
  /\ finalScoreEl_innerText (page (endGame g))
     = String_of_number (score g / 10)%Z.
Proof.
  unfold endGame, cancelAnimationFrame. rewrite <- floor_tenth.
  destruct g as [[h|] ? ? ? ? ? ? ? ? ? ? ? ?]; repeat split; reflexivity.
Qed.

(** *** Collision *)

(** The outcome of a running call of [update], variable by variable. *)
Lemma update_outcome (d : Draws) (g : Game) :
  gameActive g = true ->
  let g1 := before_asteroids d g in
  (session_state (update d g) = Running
   /\ frameCount (update d g) = (frameCount g + 1)%Z
   /\ Forall (fun a => hit (height g) (player g1) a = false) (asteroids g1))
  \/ (session_state (update d g) = Ended
      /\ frameCount (update d g) = frameCount g
      /\ exists a, In a (asteroids g1) /\ hit (height g) (player g1) a = true).
Proof.
  intros Hactive g1.
  pose proof (before_asteroids_dimensions d g) as [_ Hh].
  pose proof (before_asteroids_frameCount d g) as Hfc.
  pose proof (before_asteroids_gameActive d g) as Hga.
  pose proof (update_cases d g Hactive) as Hcases.
  cbv zeta in Hcases. unfold g1. clear g1.
  revert Hh Hfc Hga Hcases.
  generalize (before_asteroids d g) as g1. generalize (update d g) as g'.
  intros g' g1 Hh Hfc Hga
    [[Hmiss ->] | (pre & a & post & Hg & Ha & Hmiss & ->)];
    rewrite Hh in *.
  - left. split; [|split; [|exact Hmiss]].
    + unfold session_state. cbn [gameActive set_frameCount set_asteroids].
      rewrite Hga, Hactive. reflexivity.
    + cbn [frameCount set_frameCount set_asteroids]. rewrite Hfc. reflexivity.
  - right.
    destruct (endGame_fields
                (set_asteroids g1 (pre ++ advance a :: advance_all (height g) post)))
      as (E1 & E2 & _ & E4 & _).
    split; [|split].
    + unfold session_state. rewrite E1, E2. reflexivity.
    + rewrite E4. cbn [frameCount set_asteroids]. exact Hfc.
    + exists a. split; [|exact Ha]. rewrite Hg. apply in_elt.
Qed.

(** The asteroid loop, [endGame] and the increment of the frame counter
    leave the player, the score, the surface and the score text as the
    first part of [update] set them. *)
Lemma update_keeps (d : Draws) (g : Game) :
  gameActive g = true ->
  let g1 := before_asteroids d g in
  player (update d g) = player g1
  /\ score (update d g) = score g1
  /\ width (update d g) = width g1
  /\ height (update d g) = height g1
  /\ scoreEl_innerText (page (update d g)) = scoreEl_innerText (page g1).
Proof.
  intros Hactive g1.
  pose proof (update_cases d g Hactive) as Hcases.
  cbv zeta in Hcases. unfold g1. clear g1. revert Hcases.
  generalize (before_asteroids d g) as g1. generalize (update d g) as g'.
  intros g' g1 [[_ ->] | (pre & a & post & _ & _ & _ & ->)].
  - repeat split; reflexivity.
  - destruct (endGame_fields
                (set_asteroids g1 (pre ++ advance a :: advance_all (height g1) post)))
      as (_ & _ & E3 & _ & _ & E6 & E7 & E8 & E9 & _).
    rewrite E3, E6, E7, E8, E9. repeat split; reflexivity.
Qed.

(** *** The boundary checks *)

(** The two upper bounds hold after the four tests whatever the
    surface; the lower bound of an axis needs a surface of at least two
    radii along it, and on a smaller one the player is left at the
    upper bound. *)
Lemma boundary_checks_bounds (g : Game) :
  let p := player (boundary_checks g) in
  let r := player_size (player g) in
  player_x p <= width g - r
  /\ player_y p <= height g - r
  /\ (2 * r <= width g -> r <= player_x p)
  /\ (2 * r <= height g -> r <= player_y p)
  /\ (width g < 2 * r -> player_x p = width g - r)
  /\ (height g < 2 * r -> player_y p = height g - r).
Proof.
  unfold boundary_checks. cbn [player set_player].
  destruct g as [? ? ? ? w h [x y r c t] ? ? ? ? ? ?].
  cbn [width height player player_x player_y player_size set_x set_y].
  destruct (Qltb x r) eqn:E1;
    cbn [player_x player_y player_size set_x set_y];
    [destruct (Qltb (w - r) r) eqn:E2 | destruct (Qltb (w - r) x) eqn:E2];
    cbn [player_x player_y player_size set_x set_y];
    (destruct (Qltb y r) eqn:E3;
     cbn [player_x player_y player_size set_x set_y];
     [destruct (Qltb (h - r) r) eqn:E4 | destruct (Qltb (h - r) y) eqn:E4];
     cbn [player_x player_y player_size set_x set_y]);
    rewrite ?Qltb_lt, ?Qltb_ge in *;
    repeat split; intros;
    first [reflexivity | lra | exfalso; lra].
Qed.

(** C2, as the code has it.  After a running tick the player is where
    the boundary checks left it: at most at [width - size] and
    [height - size] on every surface; at least at [size] along an axis
    on which the surface measures two radii or more; and exactly at
    [width - size], respectively [height - size], along an axis on
    which it measures less. *)
Theorem C2_player_clamped (d : Draws) (g : Game) :
  gameActive g = true ->
  let clamped := player (boundary_checks (move_player (increase_score g))) in
  let p := player (update d g) in
  let r := player_size (player g) in
  (player_x p = player_x clamped /\ player_y p = player_y clamped
   /\ player_size p = r)
  /\ player_x p <= width g - r
  /\ player_y p <= height g - r
  /\ (2 * r <= width g -> r <= player_x p)
  /\ (2 * r <= height g -> r <= player_y p)
  /\ (width g < 2 * r -> player_x p = width g - r)
  /\ (height g < 2 * r -> player_y p = height g - r).
Proof.
  intros Hactive clamped p r.
  destruct (update_keeps d g Hactive) as (Hp & _).
  destruct (before_asteroids_position d g) as (Hx & Hy & Hs).
  fold clamped in Hx, Hy. unfold p. rewrite Hp, Hx, Hy, Hs.
  pose proof (boundary_checks_bounds (move_player (increase_score g)))
    as (B1 & B2 & B3 & B4 & B5 & B6).
  change (player_size (player (move_player (increase_score g)))) with r in *.
  change (width (move_player (increase_score g))) with (width g) in *.
  change (height (move_player (increase_score g))) with (height g) in *.
  fold clamped in B1, B2, B3, B4, B5, B6.
  clearbody clamped.
  exact (conj (conj eq_refl (conj eq_refl eq_refl))
           (conj B1 (conj B2 (conj B3 (conj B4 (conj B5 B6)))))).
Qed.

(** On a window 20 pixels wide the surface is 19 wide, less than the
    two radii of the player: the boundary checks leave it at [19 - 20]. *)
Lemma C2_counterexample :
  ~ (forall (d : Draws) (g : Game),
       gameActive g = true ->
       let p := player (update d g) in
       player_size p <= player_x p <= width g - player_size p
       /\ player_size p <= player_y p <= height g - player_size p).
Proof.
  intros H.
  specialize (H sample_draws (reset_game narrow (initial_game blank_page)) eq_refl).
  destruct H as [[H _] _]. vm_compute in H. apply H. reflexivity.
Qed.

(** C2 on the narrow window: the game is running, the surface is less
    than two radii wide and at least two radii high, so the player is
    at [width - size] along [x] and inside the bounds along [y]. *)
Lemma C2_player_clamped_witness :
  let g := reset_game narrow (initial_game blank_page) in
  let p := player (update sample_draws g) in
  let r := player_size (player g) in
  gameActive g = true
  /\ player_x p = width g - r
  /\ r <= player_y p /\ player_y p <= height g - r.
Proof.
  intros g p r.
  assert (Hactive : gameActive g = true) by reflexivity.
  destruct (C2_player_clamped sample_draws g Hactive)
    as (_ & _ & By & _ & Ly & Nx & _).
  split; [exact Hactive|]. split; [|split].
  - apply Nx. vm_compute. reflexivity.
  - apply Ly. vm_compute. discriminate.
  - exact By.
Defined.

(** *** Score *)

Lemma update_inactive (d : Draws) (g : Game) :
  gameActive g = false -> update d g = g.
Proof. intros H. unfold update. rewrite H. reflexivity. Qed.

Lemma update_score (d : Draws) (g : Game) :
  gameActive g = true ->
  score (update d g) = (score g + 1)%Z
  /\ scoreEl_innerText (page (update d g))
     = String_of_number ((score g + 1) / 10)%Z.
Proof.
  intros Hactive.
  destruct (update_keeps d g Hactive) as (_ & Hs & _ & _ & Hp).
  rewrite Hs, Hp, before_asteroids_score, before_asteroids_page, floor_tenth.
  split; reflexivity.
Qed.

Lemma gameLoop_score (d : Draws) (g : Game) :
  score (gameLoop d g) = if gameActive g then (score g + 1)%Z else score g.
Proof.
  unfold gameLoop. destruct (gameActive g) eqn:Hactive; cbn [negb].
  - destruct (update_score d g Hactive) as [Hs _]. revert Hs.
    generalize (update d g) as g'. intros g' <-. reflexivity.
  - reflexivity.
Qed.

Lemma resizeGame_score (win : Window) (g : Game) :
  score (resizeGame win g) = score g.
Proof.
  unfold resizeGame. cbn [gameActive set_dimensions].
  destruct (gameActive g); reflexivity.
Qed.

Lemma dispatch_score_le (g : Game) (e : Event) :
  starts_session e = false -> (score g <= score (dispatch g e))%Z.
Proof.
  destruct e; cbn [starts_session dispatch]; intros He; try discriminate.
  - cbn. lia.
  - rewrite resizeGame_score. cbn. lia.
  - cbn. lia.
  - cbn. lia.
  - cbn. lia.
  - cbn. lia.
  - rewrite resizeGame_score. lia.
  - destruct (rafPending g) as [|h pending]; [lia|].
    rewrite gameLoop_score. cbn [gameActive score set_raf].
    destruct (gameActive g); lia.
Qed.

Lemma run_score_le (events : list Event) (g : Game) :
  Forall (fun e => starts_session e = false) events ->
  (score g <= score (run g events))%Z.
Proof.
  revert g. induction events as [|e events IH]; intros g Hev.
  - cbn. lia.
  - apply Forall_cons_1 in Hev as [He Hev].
    change (run g (e :: events)) with (run (dispatch g e) events).
    pose proof (dispatch_score_le g e He). pose proof (IH (dispatch g e) Hev).
    lia.
Qed.

Lemma reset_game_fields (win : Window) (g : Game) :
  let r := reset_game win g in
  score r = 0%Z
  /\ frameCount r = 0%Z
  /\ asteroids r = []
  /\ player_trail (player r) = []
  /\ gameActive r = true
  /\ width r = Math_min 800 (innerWidth win * 0.95)
  /\ height r = Math_min 600 (innerHeight win * 0.8)
  /\ player_x (player r) = width r / 2
  /\ player_y (player r) = height r - 100
  /\ mouseX r = width r / 2
  /\ mouseY r = height r - 100
  /\ player_size (player r) = player_size (player g).
Proof.
  destruct g as [? ? [|] ? ? ? [? ? ? ? ?] ? ? ? ? ? ?], win as [iw ih];
    intros r; repeat split; vm_compute; reflexivity.
Qed.

Lemma startGame_score (win : Window) (d : Draws) (g : Game) :
  score (startGame win d g) = 1%Z.
Proof.
  unfold startGame. rewrite gameLoop_score.
  destruct (reset_game_fields win g) as (-> & _ & _ & _ & -> & _).
  reflexivity.
Qed.

(** C3. In a session, that is after [startGame] and any events other
    than a new start, the score is not negative and no event lowers it;
    a call of [update] on a running game adds exactly 1 to it and writes
    the integer part of a tenth of the new score to the score display. *)
Theorem C3_score_per_tick
    (win : Window) (d0 : Draws) (g0 : Game) (events : list Event) (d : Draws) :
  Forall (fun e => starts_session e = false) events ->
  let g := run (startGame win d0 g0) events in
  (0 <= score g)%Z
  /\ (forall e, starts_session e = false -> (score g <= score (dispatch g e))%Z)
  /\ (gameActive g = true ->
      score (update d g) = (score g + 1)%Z
      /\ scoreEl_innerText (page (update d g))
         = String_of_number (Math_floor (inject_Z (score (update d g)) / 10))
      /\ Math_floor (inject_Z (score (update d g)) / 10)
         = ((score g + 1) / 10)%Z).
Proof.
  intros Hev g. split; [|split].
  - pose proof (run_score_le events (startGame win d0 g0) Hev) as Hle.
    rewrite startGame_score in Hle. unfold g. lia.
  - intros e He. apply dispatch_score_le. exact He.
  - intros Hactive. destruct (update_score d g Hactive) as [Hs Hp].
    rewrite floor_tenth, Hs, Hp. repeat split; reflexivity.
Qed.

(** *** Spawning *)

Lemma spawnRate_positive (s : Z) : (0 < spawnRate s)%Z.
Proof.
  unfold spawnRate.
  destruct (s >? 500)%Z, (s >? 1000)%Z, (s >? 2000)%Z; lia.
Qed.

(** On the test [% === 0] the remainder of JavaScript and the modulus
    agree, whatever the sign of the left operand. *)
Lemma rem_zero_mod_zero (a b : Z) :
  (b <> 0)%Z -> (Z.rem a b =? 0)%Z = (a mod b =? 0)%Z.
Proof.
  intros Hb. apply eq_true_iff_eq.
  rewrite !Z.eqb_eq, Z.rem_divide, Z.mod_divide by exact Hb. reflexivity.
Qed.

Lemma before_spawn_counters (g : Game) :
  frameCount (before_spawn g) = frameCount g
  /\ score (before_spawn g) = (score g + 1)%Z.
Proof.
  unfold before_spawn, update_trail, create_trail.
  destruct (Z.rem _ 3 =? 0)%Z; split; reflexivity.
Qed.

(** C4. The spawn rate is 45 up to a score of 500, 35 up to 1000, 25 up
    to 2000 and 15 above.  A call of [update] on a running game calls
    [spawnAsteroid], between the trail and the loop over the asteroids,
    exactly when the frame counter is a multiple of the rate of the
    current score (the score already incremented in that tick); on a
    game that is not running it does nothing. *)
Theorem C4_spawn_interval (d : Draws) (g : Game) (s : Z) :
  spawnRate s
  = (if (s <=? 500)%Z then 45
     else if (s <=? 1000)%Z then 35
     else if (s <=? 2000)%Z then 25
     else 15)%Z
  /\ (spawnRate 500 = 45 /\ spawnRate 1000 = 35 /\ spawnRate 2000 = 25)%Z
  /\ update d g
     = (if gameActive g
        then collide_and_count
               (if (frameCount g mod spawnRate (score g + 1) =? 0)%Z
                then spawnAsteroid d (before_spawn g)
                else before_spawn g)
        else g)
  /\ asteroids (spawnAsteroid d (before_spawn g))
     = asteroids g ++ [new_asteroid d (width g) (score g + 1)]
  /\ asteroids (before_spawn g) = asteroids g.
Proof.
  split; [|split; [|split; [|split]]].
  - unfold spawnRate.
    destruct (Z.leb_spec s 500), (Z.leb_spec s 1000), (Z.leb_spec s 2000);
      destruct (Z.gtb_spec s 500), (Z.gtb_spec s 1000), (Z.gtb_spec s 2000);
      solve [reflexivity | lia].
  - repeat split; reflexivity.
  - unfold update. destruct (gameActive g); cbn [negb]; [|reflexivity].
    unfold before_asteroids, spawn_asteroids. fold (before_spawn g).
    destruct (before_spawn_counters g) as [Hf Hs]. rewrite Hf, Hs.
    rewrite rem_zero_mod_zero
      by (pose proof (spawnRate_positive (score g + 1)); lia).
    generalize (before_spawn g) as g0. intros g0. reflexivity.
  - unfold spawnAsteroid. cbn [asteroids set_asteroids].
    destruct (before_spawn_counters g) as [_ Hs]. rewrite Hs.
    unfold before_spawn, update_trail, create_trail.
    destruct (Z.rem _ 3 =? 0)%Z; reflexivity.
  - unfold before_spawn, update_trail, create_trail.
    destruct (Z.rem _ 3 =? 0)%Z; reflexivity.
Qed.

(** *** Start and restart *)

Lemma gameLoop_asteroids (d : Draws) (g : Game) :
  asteroids (gameLoop d g) = asteroids (update d g).
Proof.
  unfold gameLoop. destruct (gameActive g) eqn:Hactive; cbn [negb].
  - generalize (update d g) as g'. intros g'. reflexivity.
  - rewrite update_inactive by exact Hactive. reflexivity.
Qed.

Lemma Math_min_nonneg (a b : Q) : 0 <= a -> 0 <= b -> 0 <= Math_min a b.
Proof. intros Ha Hb. unfold Math_min. destruct (Qltb b a); assumption. Qed.

(** A fresh asteroid is not off the screen after its first move, on a
    surface of non-negative height. *)
Lemma new_asteroid_on_screen (d : Draws) (w h : Q) :
  0 <= r_size d -> r_speed d < 1 -> 0 <= h ->
  off_screen h (advance (new_asteroid d w 1)) = false.
Proof.
  intros Hsize Hspeed Hh. unfold off_screen. apply Qltb_ge.
  unfold advance, new_asteroid. cbn [ast_y ast_size ast_speed].
  change (inject_Z 1) with 1. lra.
Qed.

(** C10. The first frame of a session finds the frame counter at 0, a
    multiple of the spawn rate, and pushes an asteroid; with draws in
    [0, 1) and a window of non-negative height that asteroid is still
    there when [startGame] returns. *)
Theorem C10_first_tick_spawns (win : Window) (d : Draws) (g : Game) :
  0 <= r_size d -> r_speed d < 1 -> 0 <= innerHeight win ->
  let r := reset_game win g in
  (frameCount r mod spawnRate (score r + 1) = 0)%Z
  /\ asteroids (before_asteroids d r) = [new_asteroid d (width r) 1]
  /\ asteroids (startGame win d g) <> [].
Proof.
  intros Hsize Hspeed Hwin r.
  destruct (reset_game_fields win g)
    as (Hs & Hf & Ha & _ & Hactive & _ & Hh & _).
  fold r in Hs, Hf, Ha, Hactive, Hh.
  assert (Hstart : startGame win d g = gameLoop d r) by reflexivity.
  assert (Hh0 : 0 <= height r).
  { rewrite Hh. apply Math_min_nonneg; lra. }
  clearbody r. clear Hh.
  assert (Hspawn : asteroids (before_asteroids d r) = [new_asteroid d (width r) 1]).
  { rewrite before_asteroids_asteroids, Hf, Hs, Ha. reflexivity. }
  split; [rewrite Hf, Hs; reflexivity|]. split; [exact Hspawn|].
  rewrite Hstart, gameLoop_asteroids.
  pose proof (before_asteroids_dimensions d r) as [_ Hh1].
  pose proof (update_cases d r Hactive) as Hcases. cbv zeta in Hcases.
  revert Hspawn Hh1 Hcases.
  generalize (before_asteroids d r) as g1. generalize (update d r) as g'.
  intros g' g1 Hspawn Hh1 [[_ ->] | (pre & a & post & _ & _ & _ & ->)].
  - cbn [asteroids set_frameCount set_asteroids].
    rewrite Hspawn, Hh1. unfold advance_all. cbn [map List.filter].
    rewrite new_asteroid_on_screen by assumption. discriminate.
  - destruct (endGame_fields
                (set_asteroids g1 (pre ++ advance a :: advance_all (height g1) post)))
      as (_ & _ & _ & _ & E5 & _).
    rewrite E5. cbn [asteroids set_asteroids]. destruct pre; discriminate.
Qed.

(** C10 at a sample input: its hypotheses hold there. *)
Lemma C10_first_tick_spawns_witness :
  0 <= r_size sample_draws /\ r_speed sample_draws < 1
  /\ 0 <= innerHeight desktop
  /\ asteroids (startGame desktop sample_draws (initial_game blank_page)) <> [].
Proof.
  assert (H1 : 0 <= r_size sample_draws) by (vm_compute; discriminate).
  assert (H2 : r_speed sample_draws < 1) by (vm_compute; reflexivity).
  assert (H3 : 0 <= innerHeight desktop) by (vm_compute; discriminate).
  repeat split; try assumption.
  exact (proj2 (proj2 (C10_first_tick_spawns desktop sample_draws
                         (initial_game blank_page) H1 H2 H3))).
Defined.

(** *** The trail *)






(** *** The order of the collision checks *)

Lemma update_hit (d : Draws) (g : Game) (pre post : list Asteroid) (a : Asteroid) :
  gameActive g = true ->
  let g1 := before_asteroids d g in
  asteroids g1 = pre ++ a :: post ->
  hit (height g1) (player g1) a = true ->
  Forall (fun b => hit (height g1) (player g1) b = false) post ->
  update d g
  = endGame (set_asteroids g1 (pre ++ advance a :: advance_all (height g1) post)).
Proof.
  intros Hactive. unfold update. rewrite Hactive. cbn [negb]. cbv zeta.
  generalize (before_asteroids d g) as g1. intros g1 Hg Ha Hpost.
  rewrite Hg at 1.
  rewrite (asteroid_loop_hit pre post [] a g1)
    by (rewrite ?app_nil_r; assumption).
  rewrite app_nil_r. reflexivity.
Qed.

(** C6, as the code has it.  The loop runs from the newest asteroid to
    the oldest.  When [a] is the newest asteroid that is hit, the
    session ends there: the asteroids newer than [a] have been moved
    (and dropped when off the screen), [a] has been moved, and the older
    ones are left as they were, neither moved nor checked. *)
Theorem C6_collision_order
    (d : Draws) (g : Game) (pre post : list Asteroid) (a : Asteroid) :
  gameActive g = true ->
  let g1 := before_asteroids d g in
  asteroids g1 = pre ++ a :: post ->
  hit (height g) (player g1) a = true ->
  Forall (fun b => hit (height g) (player g1) b = false) post ->
  session_state (update d g) = Ended
  /\ asteroids (update d g)
     = pre ++ advance a :: advance_all (height g) post.
Proof.
  intros Hactive g1 Hg Ha Hpost.
  pose proof (before_asteroids_dimensions d g) as [_ Hh]. fold g1 in Hh.
  rewrite <- Hh in Ha, Hpost |- *.
  pose proof (update_hit d g pre post a Hactive Hg Ha Hpost) as Hup.
  fold g1 in Hup. clearbody g1. rewrite Hup.
  destruct (endGame_fields
              (set_asteroids g1 (pre ++ advance a :: advance_all (height g1) post)))
    as (E1 & E2 & _ & _ & E5 & _).
  split.
  - unfold session_state. rewrite E1, E2. reflexivity.
  - rewrite E5. reflexivity.
Qed.

(** With two asteroids over the player the code stops at the newer
    one and leaves the older one unmoved; in insertion order the older
    one would have been moved and found first. *)
Lemma C6_counterexample :
  ~ (forall (d : Draws) (g : Game),
       gameActive g = true ->
       let g1 := before_asteroids d g in
       asteroids (update d g)
       = fst (insertion_order_loop (height g) (player g1) (asteroids g1))).
Proof.
  intros H. specialize (H sample_draws two_overhead eq_refl).
  vm_compute in H. discriminate H.
Qed.

(** C6 at a sample input: its hypotheses hold there. *)
Lemma C6_collision_order_witness :
  gameActive two_overhead = true
  /\ session_state (update sample_draws two_overhead) = Ended
  /\ asteroids (update sample_draws two_overhead) = [older; advance newer].
Proof.
  split; [reflexivity|].
  apply (C6_collision_order sample_draws two_overhead [older] [] newer).
  - reflexivity.
  - vm_compute. reflexivity.
  - vm_compute. reflexivity.
  - constructor.
Defined.

(** *** Initialisation *)

(** C9, at two documents the guard of line 19 lets through.  Without
    the play button the closure creates its state and attaches four
    listeners, then stops with a [TypeError] at line 286.  Without the
    score element it attaches all seven listeners, and the click on play
    stops with a [TypeError] in [startGame]. *)
Theorem C9_partial_initialisation :
  init without_playBtn blank_page
  = TypeError [startBtn_click; closeBtn_click; canvas_mousemove; canvas_touchmove]
      (initial_game blank_page)
  /\ init without_scoreEl blank_page
     = Activated [startBtn_click; closeBtn_click; canvas_mousemove;
                  canvas_touchmove; playBtn_click; restartBtn_click;
                  window_resize]
         (initial_game blank_page)
  /\ startGame_throws without_scoreEl = true.
Proof. repeat split. Qed.

(** *** Sample runs *)

(** C3 at a sample input: its hypotheses hold there. *)
Lemma C3_score_per_tick_witness :
  let g := run (startGame desktop sample_draws (initial_game blank_page))
               three_events in
  Forall (fun e => starts_session e = false) three_events
  /\ gameActive g = true
  /\ score g = 3%Z
  /\ score (update sample_draws g) = 4%Z
  /\ scoreEl_innerText (page (update sample_draws g)) = "0".
Proof.
  intros g.
  assert (Hev : Forall (fun e => starts_session e = false) three_events)
    by (repeat constructor).
  assert (Hactive : gameActive g = true) by (vm_compute; reflexivity).
  assert (Hscore : score g = 3%Z) by (vm_compute; reflexivity).
  destruct (C3_score_per_tick desktop sample_draws (initial_game blank_page)
              three_events sample_draws Hev) as (_ & _ & Htick).
  destruct (Htick Hactive) as (Hs & Hp & Hf).
  fold g in Hs, Hp, Hf.
  split; [exact Hev|]. split; [exact Hactive|]. split; [exact Hscore|].
  split.
  - rewrite Hs, Hscore. reflexivity.
  - rewrite Hp, Hf, Hscore. reflexivity.
Defined.


(** ** Further properties of the code *)

(** *** The loops *)

(** X1. The loop over the trail (lines 112-117), which runs backwards
    and splices while it iterates, ages every particle exactly once,
    removes exactly those whose alpha has come down to 0 or below, and
    keeps the others in their order. *)
Theorem X1_trail_loop_filters (trail : list TrailParticle) :
  trail_loop (length trail) trail
  = List.filter (fun p => negb (Qleb (p_alpha p) 0)) (map age_particle trail).
Proof. exact (trail_loop_all trail). Qed.

Lemma advance_all_on_screen (h : Q) (l : list Asteroid) :
  Forall (fun a => ast_y a <= h + ast_size a) (advance_all h l).
Proof.
  unfold advance_all. apply List.Forall_forall. intros a Ha.
  apply List.filter_In in Ha as [_ Ha].
  apply negb_true_iff in Ha. apply Qltb_ge in Ha. exact Ha.
Qed.

(** X2. A running call of [update] in which no asteroid is hit moves
    every asteroid once by its speed, keeps the ones still on the screen
    in their order, leaves the session running and adds 1 to the frame
    counter; no asteroid that is left is below [height + size]. *)
Theorem X2_tick_without_collision (d : Draws) (g : Game) :
  gameActive g = true ->
  let g1 := before_asteroids d g in
  Forall (fun a => hit (height g) (player g1) a = false) (asteroids g1) ->
  asteroids (update d g)
  = List.filter (fun a => negb (off_screen (height g) a))
      (map advance (asteroids g1))
  /\ Forall (fun a => ast_y a <= height g + ast_size a) (asteroids (update d g))
  /\ session_state (update d g) = Running
  /\ frameCount (update d g) = (frameCount g + 1)%Z.
Proof.
  intros Hactive g1 Hmiss.
  pose proof (before_asteroids_dimensions d g) as [_ Hh].
  pose proof (before_asteroids_frameCount d g) as Hfc.
  pose proof (before_asteroids_gameActive d g) as Hga.
  pose proof (update_cases d g Hactive) as Hcases. cbv zeta in Hcases.
  unfold g1 in *. clear g1. revert Hmiss Hh Hfc Hga Hcases.
  generalize (before_asteroids d g) as g1. generalize (update d g) as g'.
  intros g' g1 Hmiss Hh Hfc Hga
    [[_ ->] | (pre & a & post & Hg & Ha & _ & _)].
  - cbn [asteroids frameCount set_frameCount set_asteroids].
    rewrite Hh, Hfc. split; [reflexivity|]. split.
    + apply advance_all_on_screen.
    + split; [|reflexivity]. unfold session_state.
      cbn [gameActive set_frameCount set_asteroids]. rewrite Hga, Hactive.
      reflexivity.
  - exfalso. rewrite Hg in Hmiss. apply Forall_app in Hmiss as [_ Hmiss].
    apply Forall_inv in Hmiss. rewrite Hh in Ha. congruence.
Qed.

(** X2 at a sample input: its hypotheses hold there. *)
Lemma X2_tick_without_collision_witness :
  let g := reset_game desktop (initial_game blank_page) in
  gameActive g = true
  /\ session_state (update sample_draws g) = Running
  /\ frameCount (update sample_draws g) = 1%Z.
Proof.
  intros g. split; [reflexivity|].
  refine (proj2 (proj2 (X2_tick_without_collision sample_draws g eq_refl _))).
  apply List.Forall_forall. intros a Ha. vm_compute in Ha.
  destruct Ha as [<- | []]. vm_compute. reflexivity.
Defined.

(** *** Spawning *)

(** X8. The spawn rate never grows with the score and stays between 15
    and 45 frames. *)
Theorem X8_spawnRate_monotone (s1 s2 : Z) :
  (s1 <= s2)%Z ->
  (spawnRate s2 <= spawnRate s1)%Z /\ (15 <= spawnRate s1 <= 45)%Z.
Proof.
  intros Hle. unfold spawnRate.
  destruct (Z.gtb_spec s1 500), (Z.gtb_spec s1 1000), (Z.gtb_spec s1 2000),
    (Z.gtb_spec s2 500), (Z.gtb_spec s2 1000), (Z.gtb_spec s2 2000); lia.
Qed.

(** X8 at a sample input: its hypotheses hold there. *)
Lemma X8_spawnRate_monotone_witness :
  (500 <= 501)%Z /\ (spawnRate 501 <= spawnRate 500)%Z.
Proof.
  assert (H : (500 <= 501)%Z) by lia.
  exact (conj H (proj1 (X8_spawnRate_monotone 500 501 H))).
Defined.

Lemma floor_unit_times_4 (r : Q) :
  0 <= r < 1 -> (0 <= Math_floor (r * inject_Z 4) < 4)%Z.
Proof.
  intros [H0 H1]. unfold Math_floor. split.
  - change 0%Z with (Qfloor 0). apply Qfloor_resp_le.
    change (inject_Z 4) with 4. lra.
  - rewrite Zlt_Qlt. apply Qle_lt_trans with (r * inject_Z 4).
    + apply Qfloor_le.
    + change (inject_Z 4) with 4. lra.
Qed.

(** X9. With the draws in [0, 1) the colour of a new asteroid is one of
    the four colours of the palette (never [undefined]), its rotation
    is in [0, Math.PI) and its rotation speed in [-0.05, 0.05). *)
Theorem X9_cosmetic_fields (d : Draws) (w : Q) (s : Z) :
  0 <= r_color d < 1 -> 0 <= r_rotation d < 1 -> 0 <= r_rotSpeed d < 1 ->
  let a := new_asteroid d w s in
  (exists c, ast_color a = Some c /\ In c asteroidColors)
  /\ 0 <= ast_rotation a < Math_PI
  /\ -0.05 <= ast_rotSpeed a < 0.05.
Proof.
  intros Hc Hr Hs a. unfold a, new_asteroid.
  cbn [ast_color ast_rotation ast_rotSpeed]. split; [|split].
  - pose proof (floor_unit_times_4 (r_color d) Hc) as Hk.
    change (Z.of_nat (length asteroidColors)) with 4%Z.
    destruct (Math_floor (r_color d * inject_Z 4)) as [|k|k]; try lia.
    + eexists. split; [reflexivity|]. simpl. tauto.
    + assert (Hk3 : (k = 1 \/ k = 2 \/ k = 3)%positive) by lia.
      destruct Hk3 as [-> | [-> | ->]];
        (eexists; split; [reflexivity|]; simpl; tauto).
  - assert (HPI : 0 < Math_PI) by reflexivity. nra.
  - lra.
Qed.

(** X9 at a sample input: its hypotheses hold there. *)
Lemma X9_cosmetic_fields_witness :
  0 <= r_color sample_draws < 1
  /\ ast_color (new_asteroid sample_draws 800 0) = Some "#FFD700".
Proof.
  assert (Hc : 0 <= r_color sample_draws < 1)
    by (vm_compute; split; [discriminate | reflexivity]).
  assert (Hr : 0 <= r_rotation sample_draws < 1)
    by (vm_compute; split; [discriminate | reflexivity]).
  assert (Hs : 0 <= r_rotSpeed sample_draws < 1)
    by (vm_compute; split; [discriminate | reflexivity]).
  split; [exact Hc|].
  destruct (X9_cosmetic_fields sample_draws 800 0%Z Hc Hr Hs)
    as ((c & Hcol & Hin) & _).
  rewrite Hcol in *. vm_compute in Hcol. injection Hcol as <-. reflexivity.
Defined.

(** *** Frames, game over and the scheduler *)

(** The variables [update] leaves alone up to the asteroid loop. *)
Lemma before_asteroids_frame (d : Draws) (g : Game) :
  animationId (before_asteroids d g) = animationId g
  /\ rafPending (before_asteroids d g) = rafPending g
  /\ rafNext (before_asteroids d g) = rafNext g
  /\ mouseX (before_asteroids d g) = mouseX g
  /\ mouseY (before_asteroids d g) = mouseY g.
Proof.
  unfold before_asteroids, spawn_asteroids, spawnAsteroid, update_trail, create_trail.
  repeat match goal with |- context [if ?c then _ else _] => destruct c end;
    repeat split; reflexivity.
Qed.

Lemma gameLoop_inactive (d : Draws) (g : Game) :
  gameActive g = false -> gameLoop d g = g.
Proof. intros H. unfold gameLoop. rewrite H. reflexivity. Qed.

(** What [gameLoop] adds to [update] on a running game: the request of
    the next frame. *)
Lemma gameLoop_active (d : Draws) (g : Game) :
  gameActive g = true ->
  let u := update d g in
  gameLoop d g
  = set_animationId (set_raf u (rafPending u ++ [rafNext u]) (S (rafNext u)))
      (Some (rafNext u)).
Proof. intros H. unfold gameLoop. rewrite H. reflexivity. Qed.

Lemma endGame_cancels (g : Game) :
  rafPending (endGame g)
  = match animationId g with
    | Some id => filter (fun k => k <> id) (rafPending g)
    | None => rafPending g
    end
  /\ rafNext (endGame g) = rafNext g.
Proof.
  unfold endGame, cancelAnimationFrame.
  destruct g as [[h|] ? ? ? ? ? ? ? ? ? ? pending next]; split; reflexivity.
Qed.

(** The pending requests after a call of [update] that ended the game. *)
Lemma update_ended_raf (d : Draws) (g : Game) :
  gameActive g = true ->
  gameActive (update d g) = false ->
  rafPending (update d g)
  = match animationId g with
    | Some id => filter (fun k => k <> id) (rafPending g)
    | None => rafPending g
    end
  /\ rafNext (update d g) = rafNext g.
Proof.
  intros Hactive Hended.
  destruct (before_asteroids_frame d g) as (Hid & Hp1 & Hn1 & _).
  pose proof (before_asteroids_gameActive d g) as Hga.
  rewrite <- Hid, <- Hp1, <- Hn1.
  pose proof (update_cases d g Hactive) as Hcases. cbv zeta in Hcases.
  revert Hended Hga Hcases. clear Hid Hp1 Hn1.
  generalize (before_asteroids d g) as g1. generalize (update d g) as u.
  intros u g1 Hended Hga [[_ ->] | (pre & a & post & _ & _ & _ & ->)].
  - cbn [gameActive set_frameCount set_asteroids] in Hended. congruence.
  - apply (endGame_cancels
             (set_asteroids g1 (pre ++ advance a :: advance_all (height g1) post))).
Qed.

(** X4. On a frame that ends the game [endGame] cancels, among the
    callbacks still pending, the one whose handle is in [animationId],
    if there is one; with a single loop there is none to cancel, the
    handle being that of the callback that is running.  [gameLoop] then
    goes on to request one more frame.  A frame callback that runs next
    changes no variable of the game and requests nothing: it only leaves
    the list of pending callbacks, which after a single loop is then
    empty. *)
Theorem X4_one_stray_frame (d d' : Draws) (g : Game) (h : nat) (rest : list nat) :
  gameActive g = true ->
  rafPending g = h :: rest ->
  let g' := dispatch g (AnimationFrame d) in
  session_state g' = Ended ->
  rafPending g'
  = match animationId g with
    | Some id => filter (fun k => k <> id) rest
    | None => rest
    end ++ [rafNext g]
  /\ dispatch g' (AnimationFrame d')
     = set_raf g' (tail (rafPending g')) (rafNext g')
  /\ (rest = [] ->
      rafPending g' = [rafNext g]
      /\ rafPending (dispatch g' (AnimationFrame d')) = []).
Proof.
  intros Hactive Hp g' Hend.
  set (g0 := set_raf g rest (rafNext g)).
  assert (Hg' : g' = gameLoop d g0).
  { unfold g'. cbn [dispatch]. rewrite Hp. reflexivity. }
  assert (Hactive0 : gameActive g0 = true) by exact Hactive.
  rewrite (gameLoop_active d g0 Hactive0) in Hg'. cbv zeta in Hg'.
  assert (Hinactive : gameActive (update d g0) = false).
  { rewrite Hg' in Hend. unfold session_state in Hend.
    cbn [gameActive page set_animationId set_raf] in Hend.
    destruct (gameActive (update d g0)); [discriminate | reflexivity]. }
  destruct (update_ended_raf d g0 Hactive0 Hinactive) as [Hup Hun].
  change (animationId g0) with (animationId g) in Hup.
  change (rafPending g0) with rest in Hup.
  change (rafNext g0) with (rafNext g) in Hun.
  rewrite Hup, Hun in Hg'. clear Hup Hun Hend.
  clearbody g'. subst g'. revert Hinactive.
  generalize (update d g0) as u. intros u Hinactive.
  set (kept := match animationId g with
               | Some id => filter (fun k => k <> id) rest
               | None => rest
               end).
  assert (Hnext : forall pending,
             gameLoop d'
               (set_raf
                  (set_animationId (set_raf u (kept ++ [rafNext g]) (S (rafNext g)))
                     (Some (rafNext g)))
                  pending (S (rafNext g)))
             = set_raf
                 (set_animationId (set_raf u (kept ++ [rafNext g]) (S (rafNext g)))
                    (Some (rafNext g)))
                 pending (S (rafNext g))).
  { intros pending. apply gameLoop_inactive. exact Hinactive. }
  split; [reflexivity|]. split.
  - cbn [dispatch rafPending rafNext set_animationId set_raf].
    destruct kept as [|k kept']; cbn [app tail]; apply Hnext.
  - intros ->. unfold kept.
    assert (Hkept : match animationId g with
                    | Some id => filter (fun k => k <> id) []
                    | None => []
                    end = @nil nat) by (destruct (animationId g); reflexivity).
    cbn [dispatch rafPending rafNext set_animationId set_raf].
    rewrite Hkept. cbn [app]. split; [reflexivity|].
    rewrite gameLoop_inactive by exact Hinactive. reflexivity.
Qed.

(** X4 on a single loop and on two loops: with one callback pending
    nothing is cancelled; with a second loop whose callback is the one
    in [animationId], that callback is cancelled. *)
Lemma X4_one_stray_frame_witness :
  let g := set_raf two_overhead [0%nat] 1 in
  let g2 := set_animationId (set_raf two_overhead [0%nat; 1%nat] 2) (Some 1%nat) in
  gameActive g = true
  /\ rafPending (dispatch g (AnimationFrame sample_draws)) = [1%nat]
  /\ rafPending (dispatch g2 (AnimationFrame sample_draws)) = [2%nat].
Proof.
  intros g g2. split; [reflexivity|]. split.
  - refine (proj1 (proj2 (proj2 (X4_one_stray_frame sample_draws sample_draws
                                   g 0 [] eq_refl eq_refl _)) eq_refl)).
    vm_compute. reflexivity.
  - refine (proj1 (X4_one_stray_frame sample_draws sample_draws
                     g2 0 [1%nat] eq_refl eq_refl _)).
    vm_compute. reflexivity.
Defined.

(** X11. On the frame that ends the game the final score written by
    [endGame] is the text the score display got on that same frame: the
    integer part of a tenth of the incremented score. *)
Theorem X11_final_score_is_displayed_score (d : Draws) (g : Game) :
  gameActive g = true ->
  session_state (update d g) = Ended ->
  finalScoreEl_innerText (page (update d g))
  = scoreEl_innerText (page (update d g))
  /\ finalScoreEl_innerText (page (update d g))
     = String_of_number ((score g + 1) / 10)%Z.
Proof.
  intros Hactive Hend.
  pose proof (before_asteroids_score d g) as Hs.
  pose proof (before_asteroids_page d g) as Hpg.
  pose proof (before_asteroids_gameActive d g) as Hga.
  rewrite floor_tenth in Hpg.
  pose proof (update_cases d g Hactive) as Hcases. cbv zeta in Hcases.
  revert Hend Hs Hpg Hga Hcases.
  generalize (before_asteroids d g) as g1. generalize (update d g) as g'.
  intros g' g1 Hend Hs Hpg Hga
    [[_ ->] | (pre & a & post & _ & _ & _ & ->)].
  - exfalso. unfold session_state in Hend.
    cbn [gameActive set_frameCount set_asteroids] in Hend.
    rewrite Hga, Hactive in Hend. discriminate.
  - destruct (endGame_fields
                (set_asteroids g1 (pre ++ advance a :: advance_all (height g1) post)))
      as (_ & _ & _ & _ & _ & _ & _ & _ & E9 & E10).
    rewrite E9, E10. cbn [score page set_asteroids]. rewrite Hs, Hpg.
    split; reflexivity.
Qed.

(** X11 at a sample input: its hypotheses hold there. *)
Lemma X11_final_score_is_displayed_score_witness :
  gameActive two_overhead = true
  /\ finalScoreEl_innerText (page (update sample_draws two_overhead)) = "0".
Proof.
  split; [reflexivity|].
  refine (eq_trans
            (proj2 (X11_final_score_is_displayed_score sample_draws two_overhead
                      eq_refl _)) _).
  - vm_compute. reflexivity.
  - vm_compute. reflexivity.
Defined.

(** *** Events on a game that is not running *)

Lemma resizeGame_frame (win : Window) (g : Game) :
  gameActive (resizeGame win g) = gameActive g
  /\ frameCount (resizeGame win g) = frameCount g
  /\ asteroids (resizeGame win g) = asteroids g
  /\ player_trail (player (resizeGame win g)) = player_trail (player g)
  /\ player_size (player (resizeGame win g)) = player_size (player g).
Proof.
  unfold resizeGame. cbn [gameActive set_dimensions].
  destruct (gameActive g) eqn:Hactive; cbn [negb];
    repeat split; try reflexivity; exact Hactive.
Qed.

Lemma dispatch_inactive (g : Game) (e : Event) :
  gameActive g = false -> starts_session e = false ->
  gameActive (dispatch g e) = false
  /\ score (dispatch g e) = score g
  /\ frameCount (dispatch g e) = frameCount g
  /\ asteroids (dispatch g e) = asteroids g
  /\ player_trail (player (dispatch g e)) = player_trail (player g).
Proof.
  intros Hg He. destruct e; cbn [starts_session dispatch] in *;
    try discriminate;
    try (repeat split; try reflexivity; exact Hg).
  - destruct (resizeGame_frame win
                (set_page g (set_modal (page g) (modal_hidden (page g)) true)))
      as (R1 & R2 & R3 & R4 & _).
    rewrite R1, R2, R3, R4, resizeGame_score.
    repeat split; try reflexivity; exact Hg.
  - destruct (resizeGame_frame win g) as (R1 & R2 & R3 & R4 & _).
    rewrite R1, R2, R3, R4, resizeGame_score.
    repeat split; try reflexivity; exact Hg.
  - destruct (rafPending g) as [|h pending].
    + repeat split; try reflexivity; exact Hg.
    + rewrite gameLoop_inactive by exact Hg.
      repeat split; try reflexivity; exact Hg.
Qed.

(** X3. While the game is not running (before the first start, after a
    collision, after the close button) no event other than a click on
    play or restart sets it running again or changes the score, the
    frame counter, the asteroids or the trail: frames that still arrive
    do nothing. *)
Theorem X3_inactive_game_is_frozen (g : Game) (events : list Event) :
  gameActive g = false ->
  Forall (fun e => starts_session e = false) events ->
  gameActive (run g events) = false
  /\ score (run g events) = score g
  /\ frameCount (run g events) = frameCount g
  /\ asteroids (run g events) = asteroids g
  /\ player_trail (player (run g events)) = player_trail (player g).
Proof.
  intros Hg Hev. revert g Hg.
  induction Hev as [|e events He _ IH]; intros g Hg.
  - cbn. rewrite Hg. repeat split; reflexivity.
  - change (run g (e :: events)) with (run (dispatch g e) events).
    destruct (dispatch_inactive g e Hg He) as (D1 & D2 & D3 & D4 & D5).
    destruct (IH (dispatch g e) D1) as (I1 & I2 & I3 & I4 & I5).
    rewrite I1, I2, I3, I4, I5, D2, D3, D4, D5. repeat split; reflexivity.
Qed.

(** X3 at a sample input: its hypotheses hold there. *)
Lemma X3_inactive_game_is_frozen_witness :
  let g := dispatch (startGame desktop sample_draws (initial_game blank_page))
             CloseBtnClick in
  let events := [AnimationFrame sample_draws; MouseMove 10 10 0 0;
                 WindowResize narrow; AnimationFrame sample_draws] in
  gameActive g = false
  /\ Forall (fun e => starts_session e = false) events
  /\ score (run g events) = 1%Z.
Proof.
  intros g events.
  assert (Hg : gameActive g = false) by reflexivity.
  assert (Hev : Forall (fun e => starts_session e = false) events)
    by (repeat constructor).
  split; [exact Hg|]. split; [exact Hev|].
  destruct (X3_inactive_game_is_frozen g events Hg Hev) as (_ & Hs & _).
  rewrite Hs. vm_compute. reflexivity.
Defined.

Lemma gameLoop_player_size (d : Draws) (g : Game) :
  player_size (player (gameLoop d g)) = player_size (player g).
Proof.
  destruct (gameActive g) eqn:Hactive.
  - rewrite (gameLoop_active d g Hactive). cbv zeta.
    destruct (update_keeps d g Hactive) as (Hp & _).
    destruct (before_asteroids_position d g) as (_ & _ & Hs).
    rewrite <- Hs, <- Hp. generalize (update d g) as u. intros u. reflexivity.
  - rewrite gameLoop_inactive by exact Hactive. reflexivity.
Qed.

Lemma dispatch_player_size (g : Game) (e : Event) :
  player_size (player (dispatch g e)) = player_size (player g).
Proof.
  destruct e; cbn [dispatch].
  - reflexivity.
  - destruct (resizeGame_frame win
                (set_page g (set_modal (page g) (modal_hidden (page g)) true)))
      as (_ & _ & _ & _ & R5).
    rewrite R5. reflexivity.
  - reflexivity.
  - reflexivity.
  - reflexivity.
  - reflexivity.
  - unfold startGame. rewrite gameLoop_player_size.
    destruct (reset_game_fields win g) as (_ & _ & _ & _ & _ & _ & _ & _ & _ & _ & _ & R).
    exact R.
  - unfold startGame. rewrite gameLoop_player_size.
    destruct (reset_game_fields win g) as (_ & _ & _ & _ & _ & _ & _ & _ & _ & _ & _ & R).
    exact R.
  - destruct (resizeGame_frame win g) as (_ & _ & _ & _ & R5). exact R5.
  - destruct (rafPending g) as [|h pending]; [reflexivity|].
    rewrite gameLoop_player_size. reflexivity.
Qed.

(** X5. The radius of the player is 20 in every state the closure can
    reach from its initial one: no listener and no frame assigns
    [player.size]. *)
Theorem X5_player_radius_is_20 (pg : Page) (events : list Event) :
  player_size (player (run (initial_game pg) events)) = 20.
Proof.
  assert (H : forall g, player_size (player (run g events)) = player_size (player g)).
  { induction events as [|e events IH]; intros g.
    - reflexivity.
    - change (run g (e :: events)) with (run (dispatch g e) events).
      rewrite IH. apply dispatch_player_size. }
  rewrite H. reflexivity.
Qed.

(** *** The surface *)

Lemma Math_min_spec (a b : Q) :
  Math_min a b <= a /\ Math_min a b <= b
  /\ (Math_min a b = a \/ Math_min a b = b).
Proof.
  unfold Math_min. destruct (Qltb b a) eqn:E.
  - apply Qltb_lt in E. repeat split; try lra. right. reflexivity.
  - apply Qltb_ge in E. repeat split; try lra. left. reflexivity.
Qed.

(** X6. [resizeGame] makes the surface the smaller of 800 and 95% of
    the window's width by the smaller of 600 and 80% of its height.  It
    moves the player to [(width / 2, height - 100)] when the game is not
    running and leaves the player where it is during a game; score,
    frame counter and asteroids are untouched. *)
Theorem X6_resize_surface (win : Window) (g : Game) :
  let g' := resizeGame win g in
  (width g' <= 800 /\ width g' <= innerWidth win * 0.95
   /\ (width g' = 800 \/ width g' = innerWidth win * 0.95))
  /\ (height g' <= 600 /\ height g' <= innerHeight win * 0.8
      /\ (height g' = 600 \/ height g' = innerHeight win * 0.8))
  /\ (if gameActive g then player g' = player g
      else player_x (player g') = width g' / 2
           /\ player_y (player g') = height g' - 100)
  /\ score g' = score g /\ frameCount g' = frameCount g
  /\ asteroids g' = asteroids g /\ gameActive g' = gameActive g.
Proof.
  intros g'.
  assert (Hw : width g' = Math_min 800 (innerWidth win * 0.95)).
  { unfold g', resizeGame. cbn [gameActive set_dimensions].
    destruct (gameActive g); reflexivity. }
  assert (Hh : height g' = Math_min 600 (innerHeight win * 0.8)).
  { unfold g', resizeGame. cbn [gameActive set_dimensions].
    destruct (gameActive g); reflexivity. }
  destruct (resizeGame_frame win g) as (R1 & R2 & R3 & _).
  pose proof (resizeGame_score win g) as R0.
  fold g' in R0, R1, R2, R3.
  assert (Hp : if gameActive g then player g' = player g
               else player_x (player g') = width g' / 2
                    /\ player_y (player g') = height g' - 100).
  { unfold g', resizeGame. cbn [gameActive set_dimensions].
    destruct (gameActive g); [reflexivity | split; reflexivity]. }
  clearbody g'. rewrite Hw, Hh.
  pose proof (Math_min_spec 800 (innerWidth win * 0.95)) as (A1 & A2 & A3).
  pose proof (Math_min_spec 600 (innerHeight win * 0.8)) as (B1 & B2 & B3).
  rewrite Hw, Hh in Hp.
  repeat split; assumption.
Qed.

(** *** The move towards the mouse *)

Lemma boundary_checks_x (g : Game) :
  let r := player_size (player g) in
  r <= player_x (player g) <= width g - r ->
  player_x (player (boundary_checks g)) = player_x (player g).
Proof.
  destruct g as [? ? ? ? w h [x y r c t] ? ? ? ? ? ?].
  cbn [width height player player_x player_y player_size].
  intros [H1 H2]. unfold boundary_checks.
  cbn [width height player player_x player_y player_size set_player].
  apply Qltb_ge in H1, H2. rewrite H1.
  cbn [player_x player_y player_size set_x set_y]. rewrite H2.
  cbn [player_x player_y player_size set_x set_y].
  destruct (Qltb y r); cbn [player_x player_y player_size set_x set_y];
    match goal with |- context [if ?c then _ else _] => destruct c end;
    reflexivity.
Qed.

Lemma boundary_checks_y (g : Game) :
  let r := player_size (player g) in
  r <= player_y (player g) <= height g - r ->
  player_y (player (boundary_checks g)) = player_y (player g).
Proof.
  destruct g as [? ? ? ? w h [x y r c t] ? ? ? ? ? ?].
  cbn [width height player player_x player_y player_size].
  intros [H1 H2]. unfold boundary_checks.
  cbn [width height player player_x player_y player_size set_player].
  apply Qltb_ge in H1, H2.
  destruct (Qltb x r); cbn [player_x player_y player_size set_x set_y];
    match goal with
    | |- context [if Qltb (w - r) ?v then _ else _] => destruct (Qltb (w - r) v)
    end;
    cbn [player_x player_y player_size set_x set_y];
    rewrite H1; cbn [player_x player_y player_size set_x set_y];
    rewrite H2; reflexivity.
Qed.

Lemma update_moves_inside (d : Draws) (g : Game) :
  gameActive g = true ->
  let r := player_size (player g) in
  r <= player_x (player g) <= width g - r ->
  r <= mouseX g <= width g - r ->
  r <= player_y (player g) <= height g - r ->
  r <= mouseY g <= height g - r ->
  let p' := player (update d g) in
  mouseX g - player_x p' == 0.85 * (mouseX g - player_x (player g))
  /\ mouseY g - player_y p' == 0.85 * (mouseY g - player_y (player g))
  /\ r <= player_x p' <= width g - r
  /\ r <= player_y p' <= height g - r.
Proof.
  intros Hactive r Hx Hmx Hy Hmy p'.
  destruct (update_keeps d g Hactive) as (Hp & _).
  destruct (before_asteroids_position d g) as (Px & Py & _).
  unfold p'. rewrite Hp, Px, Py.
  set (g2 := move_player (increase_score g)).
  assert (Hx2 : player_x (player g2)
                = player_x (player g) + (mouseX g - player_x (player g)) * 0.15)
    by reflexivity.
  assert (Hy2 : player_y (player g2)
                = player_y (player g) + (mouseY g - player_y (player g)) * 0.15)
    by reflexivity.
  assert (Hr2 : player_size (player g2) = r) by reflexivity.
  assert (Hw2 : width g2 = width g) by reflexivity.
  assert (Hh2 : height g2 = height g) by reflexivity.
  clearbody g2.
  rewrite (boundary_checks_x g2), (boundary_checks_y g2);
    rewrite ?Hx2, ?Hy2, ?Hr2, ?Hw2, ?Hh2; cbv zeta;
    repeat split; lra.
Qed.

(** X7. While the player and the mouse target are both inside the
    playable rectangle the boundary checks change nothing: a running
    call of [update] moves the player 15% of the way to the target, so
    that 85% of the gap is left on each axis, and the player stays
    inside the rectangle. *)
Theorem X7_move_towards_mouse (d : Draws) (g : Game) :
  gameActive g = true ->
  let r := player_size (player g) in
  r <= player_x (player g) <= width g - r ->
  r <= mouseX g <= width g - r ->
  r <= player_y (player g) <= height g - r ->
  r <= mouseY g <= height g - r ->
  let p' := player (update d g) in
  mouseX g - player_x p' == 0.85 * (mouseX g - player_x (player g))
  /\ mouseY g - player_y p' == 0.85 * (mouseY g - player_y (player g))
  /\ r <= player_x p' <= width g - r
  /\ r <= player_y p' <= height g - r.
Proof. exact (update_moves_inside d g). Qed.

(** X7 at a sample input: its hypotheses hold there. *)
Lemma X7_move_towards_mouse_witness :
  let g := dispatch (reset_game desktop (initial_game blank_page))
             (MouseMove 210 310 10 10) in
  gameActive g = true
  /\ mouseX g - player_x (player (update sample_draws g))
     == 0.85 * (mouseX g - player_x (player g))
  /\ mouseY g - player_y (player (update sample_draws g))
     == 0.85 * (mouseY g - player_y (player g)).
Proof.
  intros g.
  assert (Hactive : gameActive g = true) by (vm_compute; reflexivity).
  assert (Hx : player_size (player g) <= player_x (player g)
               <= width g - player_size (player g))
    by (vm_compute; split; discriminate).
  assert (Hmx : player_size (player g) <= mouseX g
                <= width g - player_size (player g))
    by (vm_compute; split; discriminate).
  assert (Hy : player_size (player g) <= player_y (player g)
               <= height g - player_size (player g))
    by (vm_compute; split; discriminate).
  assert (Hmy : player_size (player g) <= mouseY g
                <= height g - player_size (player g))
    by (vm_compute; split; discriminate).
  destruct (X7_move_towards_mouse sample_draws g Hactive Hx Hmx Hy Hmy)
    as (Gx & Gy & _).
  split; [exact Hactive|]. split; [exact Gx | exact Gy].
Defined.

(** *** Initialisation *)

(** X10. The outcomes of the initialisation, by the elements of the
    document.  The closure returns before doing anything exactly when
    the canvas or the modal is missing; it runs to its end exactly when
    canvas, modal, play button and restart button are all there; and
    then the listeners of the start and close buttons are attached
    exactly when those buttons exist, while the five others always are. *)
Theorem X10_init_outcomes (doc : Document) (pg : Page) :
  (init doc pg = Declined
   <-> has_canvas doc = false \/ has_modal doc = false)
  /\ ((exists ls, init doc pg = Activated ls (initial_game pg))
      <-> has_canvas doc = true /\ has_modal doc = true
          /\ has_playBtn doc = true /\ has_restartBtn doc = true)
  /\ (forall ls g,
        init doc pg = Activated ls g ->
        (In startBtn_click ls <-> has_startBtn doc = true)
        /\ (In closeBtn_click ls <-> has_closeBtn doc = true)
        /\ In canvas_mousemove ls /\ In canvas_touchmove ls
        /\ In playBtn_click ls /\ In restartBtn_click ls
        /\ In window_resize ls).
Proof.
  destruct doc as [m s c cv ? ? ? ? pl rs].
  unfold init. cbn [has_modal has_startBtn has_closeBtn has_canvas has_playBtn
                    has_restartBtn].
  destruct m, s, c, cv, pl, rs; cbn [negb orb app];
    (split; [|split]);
    try (split; intros; intuition discriminate);
    try (split; [intros [ls Hls]; discriminate Hls | intuition discriminate]);
    try (split; [intros _; repeat split | intros _; eexists; reflexivity]);
    try (intros ls g Hinit; discriminate Hinit);
    try (intros ls g Hinit; injection Hinit as <- <-;
         cbn [In]; intuition discriminate).
Qed.

(** *** The trail *)

Lemma age_all_range (l : list TrailParticle) :
  Forall (fun p => p_alpha p <= 1) l ->
  Forall (fun p => 0 < p_alpha p <= 0.95) (age_all l).
Proof.
  intros Hl. unfold age_all. apply List.Forall_forall. intros p Hp.
  apply List.filter_In in Hp as [Hp Halive].
  apply List.in_map_iff in Hp as (q & <- & Hq).
  rewrite List.Forall_forall in Hl. specialize (Hl q Hq).
  apply negb_true_iff in Halive. apply Qleb_gt in Halive.
  cbn [age_particle p_alpha] in *. lra.
Qed.

(** X12. After a running call of [update] every particle of the trail
    has an alpha above 0 and at most 0.95, provided no particle had an
    alpha above 1 before (new particles start at 1); the trail grows by
    at most one particle per call. *)
Theorem X12_trail_alpha_range (d : Draws) (g : Game) :
  gameActive g = true ->
  Forall (fun p => p_alpha p <= 1) (player_trail (player g)) ->
  Forall (fun p => 0 < p_alpha p <= 0.95) (player_trail (player (update d g)))
  /\ (length (player_trail (player (update d g)))
      <= length (player_trail (player g)) + 1)%nat.
Proof.
  intros Hactive Hold.
  destruct (update_keeps d g Hactive) as (Hp & _).
  rewrite Hp, before_asteroids_trail.
  set (pushed := if (Z.rem (frameCount g) 3 =? 0)%Z then _ else _).
  assert (Hpushed : Forall (fun p => p_alpha p <= 1) pushed
                    /\ (length pushed <= 1)%nat).
  { unfold pushed. destruct (Z.rem (frameCount g) 3 =? 0)%Z.
    - split; [|cbn; lia]. constructor; [|constructor].
      cbn [new_particle p_alpha]. lra.
    - split; [constructor | cbn; lia]. }
  destruct Hpushed as [Hnew Hlen]. clearbody pushed. split.
  - apply age_all_range. apply Forall_app. split; assumption.
  - unfold age_all.
    pose proof (List.filter_length_le (fun p => negb (faded p))
                  (map age_particle (player_trail (player g) ++ pushed))) as Hf.
    rewrite length_map, length_app in Hf. lia.
Qed.

(** X12 at a sample input: its hypotheses hold there. *)
Lemma X12_trail_alpha_range_witness :
  let g := reset_game desktop (initial_game blank_page) in
  gameActive g = true
  /\ Forall (fun p => p_alpha p <= 1) (player_trail (player g))
  /\ (length (player_trail (player (update sample_draws g))) <= 0 + 1)%nat.
Proof.
  intros g.
  assert (Hactive : gameActive g = true) by reflexivity.
  assert (Hold : Forall (fun p => p_alpha p <= 1) (player_trail (player g)))
    by constructor.
  split; [exact Hactive|]. split; [exact Hold|].
  exact (proj2 (X12_trail_alpha_range sample_draws g Hactive Hold)).
Defined.

(** X15. In binary64 arithmetic, as in exact arithmetic, a particle
    pushed with alpha 1 has a positive alpha after each of its first 19
    passes and an alpha of at most 0 after the 20th: rounding does not
    change the pass on which a particle is removed. *)
Theorem X15_fade_in_binary64 :
  forallb (fun k => negb (faded_binary64 (alpha_binary64 k))) (seq 0 20) = true
  /\ faded_binary64 (alpha_binary64 20) = true.
Proof. split; vm_compute; reflexivity. Qed.

(** *** The first frame *)

Lemma crashed_far_below (p : Player) (a : Asteroid) :
  0 <= player_size p + ast_size a - 5 <= player_y p - ast_y a ->
  crashed p a = false.
Proof.
  intros [Ht Hdy]. unfold crashed, hypot_lt.
  apply andb_false_iff. right. apply Qltb_ge.
  set (dx := player_x p - ast_x a). set (dy := player_y p - ast_y a) in *.
  set (t := player_size p + ast_size a - 5) in *.
  nra.
Qed.

(** X14. On a window at least 200 pixels high, with the draws in
    [0, 1) and the radius 20, the frame that [startGame] runs itself
    cannot end the game: when [startGame] returns the session is
    running, score and frame counter are 1, and the one asteroid there
    is has made its first move. *)
Theorem X14_first_frame_keeps_running (win : Window) (d : Draws) (g : Game) :
  0 <= r_size d -> 0 <= r_speed d < 1 ->
  200 <= innerHeight win ->
  player_size (player g) == 20 ->
  let s := startGame win d g in
  session_state s = Running
  /\ score s = 1%Z
  /\ frameCount s = 1%Z
  /\ asteroids s = [advance (new_asteroid d (width (reset_game win g)) 1)].
Proof.
  intros Hsize [Hs0 Hs1] Hwin Hradius s.
  destruct (reset_game_fields win g)
    as (Hsc & Hf & Ha & _ & Hactive & _ & Hh & _ & Hpy & _ & Hmy & Hsz).
  assert (Hstart : s = gameLoop d (reset_game win g)) by reflexivity.
  assert (Hh160 : 160 <= height (reset_game win g)).
  { rewrite Hh.
    destruct (Math_min_spec 600 (innerHeight win * 0.8)) as (_ & _ & [-> | ->]);
      lra. }
  clear Hh. clearbody s. subst s. revert Hsc Hf Ha Hactive Hpy Hmy Hsz Hh160.
  generalize (reset_game win g) as r.
  intros r Hsc Hf Ha Hactive Hpy Hmy Hsz Hh160.
  rewrite <- Hsz in Hradius. clear Hsz.
  (* The state before the asteroid loop. *)
  assert (Hspawn : asteroids (before_asteroids d r) = [new_asteroid d (width r) 1]).
  { rewrite before_asteroids_asteroids, Hf, Hsc, Ha. reflexivity. }
  pose proof (before_asteroids_dimensions d r) as [_ Hh1].
  pose proof (before_asteroids_frameCount d r) as Hfc1.
  pose proof (before_asteroids_score d r) as Hsc1.
  pose proof (before_asteroids_gameActive d r) as Hga1.
  pose proof (before_asteroids_page d r) as Hpg1.
  destruct (before_asteroids_position d r) as (_ & Py & Ps). cbv zeta in Py.
  assert (Hy2 : player_y (player (move_player (increase_score r)))
                = player_y (player r) + (mouseY r - player_y (player r)) * 0.15)
    by reflexivity.
  rewrite (boundary_checks_y (move_player (increase_score r))) in Py.
  2:{ cbv zeta. rewrite Hy2, Hpy, Hmy.
      change (player_size (player (move_player (increase_score r))))
        with (player_size (player r)).
      change (height (move_player (increase_score r))) with (height r).
      lra. }
  rewrite Hy2, Hpy, Hmy in Py. clear Hy2.
  (* The new asteroid is not hit. *)
  set (a := new_asteroid d (width r) 1) in *.
  assert (Hmiss : hit (height (before_asteroids d r))
                    (player (before_asteroids d r)) a = false).
  { unfold hit. apply andb_false_iff. right. apply crashed_far_below.
    rewrite Py, Ps. unfold a, advance, new_asteroid.
    cbn [ast_y ast_size ast_speed]. change (inject_Z 1) with 1. lra. }
  assert (Hon : off_screen (height (before_asteroids d r)) (advance a) = false).
  { rewrite Hh1. apply new_asteroid_on_screen; lra. }
  rewrite (gameLoop_active d r Hactive). cbv zeta.
  pose proof (update_cases d r Hactive) as Hcases. cbv zeta in Hcases.
  clear Py Ps Hpy Hmy.
  revert Hspawn Hh1 Hfc1 Hsc1 Hga1 Hpg1 Hmiss Hon Hcases.
  generalize (before_asteroids d r) as g1. generalize (update d r) as u.
  intros u g1 Hspawn Hh1 Hfc1 Hsc1 Hga1 Hpg1 Hmiss Hon
    [[_ ->] | (pre & b & post & Hg & Hb & _ & _)].
  - unfold session_state.
    cbn [gameActive score frameCount asteroids page set_animationId set_raf
           set_frameCount set_asteroids].
    rewrite Hga1, Hactive, Hsc1, Hsc, Hfc1, Hf, Hspawn.
    unfold advance_all. cbn [map List.filter]. rewrite Hon.
    repeat split; reflexivity.
  - exfalso. rewrite Hspawn in Hg.
    destruct pre as [|? [|? ?]]; try discriminate Hg.
    injection Hg as <- _. congruence.
Qed.

(** X14 at a sample input: its hypotheses hold there. *)
Lemma X14_first_frame_keeps_running_witness :
  200 <= innerHeight desktop
  /\ session_state (startGame desktop sample_draws (initial_game blank_page))
     = Running.
Proof.
  assert (H1 : 0 <= r_size sample_draws) by (vm_compute; discriminate).
  assert (H2 : 0 <= r_speed sample_draws < 1)
    by (vm_compute; split; [discriminate | reflexivity]).
  assert (H3 : 200 <= innerHeight desktop) by (vm_compute; discriminate).
  assert (H4 : player_size (player (initial_game blank_page)) == 20)
    by reflexivity.
  split; [exact H3|].
  exact (proj1 (X14_first_frame_keeps_running desktop sample_draws
                  (initial_game blank_page) H1 H2 H3 H4)).
Defined.

(** *** Score and frame counter together *)

Lemma update_counters (d : Draws) (g : Game) :
  gameActive g = true ->
  score (update d g) = (score g + 1)%Z
  /\ (gameActive (update d g) = true
      /\ frameCount (update d g) = (frameCount g + 1)%Z
      \/ gameActive (update d g) = false
         /\ frameCount (update d g) = frameCount g).
Proof.
  intros Hactive. split; [apply update_score; exact Hactive|].
  destruct (update_outcome d g Hactive)
    as [(Hrun & Hcount & _) | (Hend & Hcount & _)].
  - left. split; [|exact Hcount]. unfold session_state in Hrun.
    destruct (gameActive (update d g)); [reflexivity|].
    destruct (gameOverScreen_hidden _); discriminate.
  - right. split; [|exact Hcount]. unfold session_state in Hend.
    destruct (gameActive (update d g)); [discriminate | reflexivity].
Qed.

Lemma gameLoop_counters (d : Draws) (g : Game) :
  counters_agree g -> counters_agree (gameLoop d g).
Proof.
  intros (H1 & H2 & H3). destruct (gameActive g) eqn:Hactive.
  - rewrite (gameLoop_active d g Hactive). cbv zeta.
    destruct (update_counters d g Hactive) as (Hs & Hf). revert Hs Hf.
    generalize (update d g) as u. intros u Hs Hf. unfold counters_agree.
    cbn [score frameCount gameActive set_animationId set_raf].
    specialize (H3 eq_refl). destruct Hf as [[Ha Hf] | [Ha Hf]];
      rewrite Hs, Hf, Ha; repeat split;
      first [lia | discriminate | intros _; lia].
  - rewrite gameLoop_inactive by exact Hactive.
    unfold counters_agree. rewrite Hactive.
    repeat split; first [lia | discriminate].
Qed.

Lemma dispatch_counters (g : Game) (e : Event) :
  counters_agree g -> counters_agree (dispatch g e).
Proof.
  intros Hg. pose proof Hg as (H1 & H2 & H3).
  destruct e; cbn [dispatch]; try exact Hg.
  - destruct (resizeGame_frame win
                (set_page g (set_modal (page g) (modal_hidden (page g)) true)))
      as (R1 & R2 & _).
    unfold counters_agree. rewrite R1, R2, resizeGame_score. exact Hg.
  - unfold counters_agree.
    cbn [score frameCount gameActive set_page set_gameActive].
    repeat split; first [lia | discriminate].
  - apply gameLoop_counters.
    destruct (reset_game_fields win g) as (Hs & Hf & _).
    unfold counters_agree. rewrite Hs, Hf.
    repeat split; first [lia | intros _; reflexivity].
  - apply gameLoop_counters.
    destruct (reset_game_fields win g) as (Hs & Hf & _).
    unfold counters_agree. rewrite Hs, Hf.
    repeat split; first [lia | intros _; reflexivity].
  - destruct (resizeGame_frame win g) as (R1 & R2 & _).
    unfold counters_agree. rewrite R1, R2, resizeGame_score. exact Hg.
  - destruct (rafPending g) as [|h pending]; [exact Hg|].
    apply gameLoop_counters. exact Hg.
Qed.

(** X13. In every state the closure can reach from its initial one the
    frame counter is not negative, the score equals the frame counter
    while the game is running, and is the frame counter or one more
    when it is not (one more after the frame that ended the game, which
    counted for the score and not for the frames). *)
Theorem X13_score_follows_frames (pg : Page) (events : list Event) :
  let g := run (initial_game pg) events in
  (0 <= frameCount g <= score g)%Z
  /\ (score g <= frameCount g + 1)%Z
  /\ (gameActive g = true -> score g = frameCount g).
Proof.
  assert (H : forall g, counters_agree g -> counters_agree (run g events)).
  { induction events as [|e events IH]; intros g Hg.
    - exact Hg.
    - change (run g (e :: events)) with (run (dispatch g e) events).
      apply IH, dispatch_counters, Hg. }
  apply H. unfold counters_agree. cbn.
  repeat split; first [lia | discriminate].
Qed.

(** *** Several frames *)

Lemma ticks_inactive (ds : list Draws) (g : Game) :
  gameActive g = false -> ticks g ds = g.
Proof.
  intros Hg. induction ds as [|d ds IH].
  - reflexivity.
  - change (ticks g (d :: ds)) with (ticks (update d g) ds).
    rewrite update_inactive by exact Hg. exact IH.
Qed.

Lemma endGame_mouse (g : Game) :
  mouseX (endGame g) = mouseX g /\ mouseY (endGame g) = mouseY g.
Proof.
  unfold endGame, cancelAnimationFrame.
  destruct g as [[h|] ? ? ? ? ? ? ? ? ? ? ? ?]; split; reflexivity.
Qed.

(** A running call of [update] does not touch the mouse target, the
    surface or the radius. *)
Lemma update_surroundings (d : Draws) (g : Game) :
  gameActive g = true ->
  mouseX (update d g) = mouseX g /\ mouseY (update d g) = mouseY g
  /\ width (update d g) = width g /\ height (update d g) = height g
  /\ player_size (player (update d g)) = player_size (player g).
Proof.
  intros Hactive.
  destruct (update_keeps d g Hactive) as (Hp & _ & Hw & Hh & _).
  destruct (before_asteroids_dimensions d g) as [Hw1 Hh1].
  destruct (before_asteroids_position d g) as (_ & _ & Hs).
  destruct (before_asteroids_frame d g) as (_ & _ & _ & Hmx & Hmy).
  rewrite Hp, Hw, Hh, Hw1, Hh1, Hs.
  assert (Hm : mouseX (update d g) = mouseX (before_asteroids d g)
               /\ mouseY (update d g) = mouseY (before_asteroids d g)).
  { pose proof (update_cases d g Hactive) as Hcases. cbv zeta in Hcases.
    revert Hcases.
    generalize (before_asteroids d g) as g1. generalize (update d g) as u.
    intros u g1 [[_ ->] | (pre & a & post & _ & _ & _ & ->)].
    - split; reflexivity.
    - destruct (endGame_mouse
                  (set_asteroids g1
                     (pre ++ advance a :: advance_all (height g1) post)))
        as [E1 E2].
      rewrite E1, E2. split; reflexivity. }
  destruct Hm as [-> ->]. rewrite Hmx, Hmy. repeat split; reflexivity.
Qed.

Lemma Qpower_succ (q : Q) (n : nat) :
  ~ q == 0 -> q ^ Z.of_nat (S n) == q * q ^ Z.of_nat n.
Proof.
  intros Hq. rewrite Nat2Z.inj_succ. unfold Z.succ.
  rewrite Qpower_plus by exact Hq. rewrite Qpower_1_r. ring.
Qed.

Lemma ticks_approach (ds : list Draws) (g : Game) (r : Q) :
  gameActive (ticks g ds) = true ->
  player_size (player g) = r ->
  r <= player_x (player g) <= width g - r ->
  r <= mouseX g <= width g - r ->
  r <= player_y (player g) <= height g - r ->
  r <= mouseY g <= height g - r ->
  mouseX g - player_x (player (ticks g ds))
  == 0.85 ^ Z.of_nat (length ds) * (mouseX g - player_x (player g))
  /\ mouseY g - player_y (player (ticks g ds))
     == 0.85 ^ Z.of_nat (length ds) * (mouseY g - player_y (player g)).
Proof.
  revert g. induction ds as [|d ds IH]; intros g Hrun Hr Hx Hmx Hy Hmy.
  - change (ticks g []) with g.
    change (0.85 ^ Z.of_nat (length (@nil Draws))) with 1. split; lra.
  - change (ticks g (d :: ds)) with (ticks (update d g) ds) in *.
    assert (Hu : gameActive (update d g) = true).
    { destruct (gameActive (update d g)) eqn:E; [reflexivity|].
      rewrite (ticks_inactive ds _ E) in Hrun. congruence. }
    assert (Hg : gameActive g = true).
    { destruct (gameActive g) eqn:E; [reflexivity|].
      rewrite (update_inactive d g E) in Hu. congruence. }
    subst r.
    destruct (update_moves_inside d g Hg Hx Hmx Hy Hmy) as (Gx & Gy & Ix & Iy).
    destruct (update_surroundings d g Hg) as (Mx & My & Hw & Hh & Hs).
    destruct (IH (update d g) Hrun Hs) as [Ax Ay];
      rewrite ?Mx, ?My, ?Hw, ?Hh; try assumption.
    rewrite Mx in Ax. rewrite My in Ay.
    rewrite Ax, Ay, Gx, Gy.
    cbn [length]. rewrite Qpower_succ by (intros H; discriminate H).
    split; ring.
Qed.

(** X16. While the game keeps running and the mouse target stays where
    it is, inside the playable rectangle like the player, the gap
    between player and target shrinks by the factor 0.85 on every call
    of [update], on each axis: after [n] calls it is [0.85 ^ n] times
    the gap at the start. *)
Theorem X16_geometric_approach (ds : list Draws) (g : Game) :
  gameActive (ticks g ds) = true ->
  let r := player_size (player g) in
  r <= player_x (player g) <= width g - r ->
  r <= mouseX g <= width g - r ->
  r <= player_y (player g) <= height g - r ->
  r <= mouseY g <= height g - r ->
  mouseX g - player_x (player (ticks g ds))
  == 0.85 ^ Z.of_nat (length ds) * (mouseX g - player_x (player g))
  /\ mouseY g - player_y (player (ticks g ds))
     == 0.85 ^ Z.of_nat (length ds) * (mouseY g - player_y (player g)).
Proof.
  intros Hrun r. apply ticks_approach; [exact Hrun | reflexivity].
Qed.

(** X16 at a sample input: its hypotheses hold there. *)
Lemma X16_geometric_approach_witness :
  let g := dispatch (reset_game desktop (initial_game blank_page))
             (MouseMove 210 310 10 10) in
  let ds := [sample_draws; sample_draws] in
  gameActive (ticks g ds) = true
  /\ mouseX g - player_x (player (ticks g ds))
     == 0.85 ^ 2 * (mouseX g - player_x (player g)).
Proof.
  intros g ds.
  assert (Hrun : gameActive (ticks g ds) = true) by (vm_compute; reflexivity).
  assert (Hx : player_size (player g) <= player_x (player g)
               <= width g - player_size (player g))
    by (vm_compute; split; discriminate).
  assert (Hmx : player_size (player g) <= mouseX g
                <= width g - player_size (player g))
    by (vm_compute; split; discriminate).
  assert (Hy : player_size (player g) <= player_y (player g)
               <= height g - player_size (player g))
    by (vm_compute; split; discriminate).
  assert (Hmy : player_size (player g) <= mouseY g
                <= height g - player_size (player g))
    by (vm_compute; split; discriminate).
  split; [exact Hrun|].
  exact (proj1 (X16_geometric_approach ds g Hrun Hx Hmx Hy Hmy)).
Defined.

(** *** Start and restart, as a whole *)

Lemma gameLoop_fields (d : Draws) (g : Game) :
  gameActive g = true ->
  let u := update d g in
  session_state (gameLoop d g) = session_state u
  /\ frameCount (gameLoop d g) = frameCount u
  /\ asteroids (gameLoop d g) = asteroids u
  /\ player (gameLoop d g) = player u
  /\ width (gameLoop d g) = width u /\ height (gameLoop d g) = height u
  /\ mouseX (gameLoop d g) = mouseX u /\ mouseY (gameLoop d g) = mouseY u.
Proof.
  intros Hactive. rewrite (gameLoop_active d g Hactive). cbv zeta.
  generalize (update d g) as u. intros u. repeat split; reflexivity.
Qed.

(** The trail after the first frame of a session: the one particle
    pushed on that frame, aged once. *)
Lemma first_frame_trail (d : Draws) (r : Game) :
  frameCount r = 0%Z -> player_trail (player r) = [] ->
  player_trail (player (before_asteroids d r))
  = [age_particle
       (new_particle (player (boundary_checks (move_player (increase_score r)))))].
Proof.
  intros Hf Ht. rewrite before_asteroids_trail, Hf, Ht. reflexivity.
Qed.

Lemma first_frame_asteroids (d : Draws) (r : Game) :
  gameActive r = true -> frameCount r = 0%Z -> score r = 0%Z ->
  asteroids r = [] ->
  (length (asteroids (update d r)) <= 1)%nat.
Proof.
  intros Hactive Hf Hs Ha.
  assert (Hspawn : asteroids (before_asteroids d r) = [new_asteroid d (width r) 1]).
  { rewrite before_asteroids_asteroids, Hf, Hs, Ha. reflexivity. }
  pose proof (update_cases d r Hactive) as Hcases. cbv zeta in Hcases.
  revert Hspawn Hcases.
  generalize (before_asteroids d r) as g1. generalize (update d r) as u.
  intros u g1 Hspawn [[_ ->] | (pre & a & post & Hg & _ & _ & ->)].
  - cbn [asteroids set_frameCount set_asteroids]. rewrite Hspawn.
    unfold advance_all. cbn [map List.filter].
    destruct (negb _); cbn; lia.
  - destruct (endGame_fields
                (set_asteroids g1 (pre ++ advance a :: advance_all (height g1) post)))
      as (_ & _ & _ & _ & E5 & _).
    rewrite E5. cbn [asteroids set_asteroids].
    rewrite Hspawn in Hg.
    destruct pre as [|? [|? ?]]; try discriminate Hg.
    injection Hg as _ <-. cbn. lia.
Qed.

(** The first frame of a session, run from a state as [startGame] sets
    it up. *)
Lemma first_frame (d : Draws) (r : Game) (size : Q) :
  gameActive r = true -> score r = 0%Z -> frameCount r = 0%Z ->
  asteroids r = [] -> player_trail (player r) = [] ->
  player_x (player r) = width r / 2 -> player_y (player r) = height r - 100 ->
  mouseX r = width r / 2 -> mouseY r = height r - 100 ->
  player_size (player r) = size ->
  let s := gameLoop d r in
  let moved := player (boundary_checks (move_player (increase_score r))) in
  score s = 1%Z
  /\ (frameCount s = 1%Z /\ session_state s = Running
      \/ frameCount s = 0%Z /\ session_state s = Ended)
  /\ (width s = width r /\ height s = height r)
  /\ (mouseX s = width s / 2 /\ mouseY s = height s - 100)
  /\ player_trail (player s) = [age_particle (new_particle moved)]
  /\ (length (asteroids s) <= 1)%nat
  /\ (player_x (player s) = player_x moved /\ player_y (player s) = player_y moved)
  /\ (size <= width s / 2 <= width s - size ->
      player_x (player s) == width s / 2)
  /\ (size <= height s - 100 <= height s - size ->
      player_y (player s) == height s - 100).
Proof.
  intros H5 H1 H2 H3 H4 H8 H9 H10 H11 H12 s moved.
  destruct (gameLoop_fields d r H5) as (G1 & G2 & G3 & G4 & G5 & G6 & G7 & G8).
  cbv zeta in G1, G2, G3, G4, G5, G6, G7, G8.
  pose proof (gameLoop_score d r) as Gs. rewrite H5 in Gs.
  destruct (update_surroundings d r H5) as (Mx & My & Hw & Hh & _).
  destruct (update_keeps d r H5) as (Hp & _). cbv zeta in Hp.
  destruct (before_asteroids_position d r) as (Px & Py & _).
  cbv zeta in Px, Py. fold moved in Px, Py.
  pose proof (first_frame_trail d r H2 H4) as Htrail. fold moved in Htrail.
  pose proof (first_frame_asteroids d r H5 H2 H1 H3) as Hlen.
  assert (Hcount : frameCount s = 1%Z /\ session_state s = Running
                   \/ frameCount s = 0%Z /\ session_state s = Ended).
  { unfold s. rewrite G1, G2.
    destruct (update_outcome d r H5) as [(A & B & _) | (A & B & _)];
      rewrite A, B, H2; [left | right]; split; reflexivity. }
  assert (Hx2 : player_x (player (move_player (increase_score r)))
                = player_x (player r) + (mouseX r - player_x (player r)) * 0.15)
    by reflexivity.
  assert (Hy2 : player_y (player (move_player (increase_score r)))
                = player_y (player r) + (mouseY r - player_y (player r)) * 0.15)
    by reflexivity.
  assert (Hs2 : player_size (player (move_player (increase_score r)))
                = player_size (player r)) by reflexivity.
  assert (Hw2 : width (move_player (increase_score r)) = width r) by reflexivity.
  assert (Hh2 : height (move_player (increase_score r)) = height r) by reflexivity.
  assert (Hposx : size <= width r / 2 <= width r - size ->
                  player_x moved == width r / 2).
  { intros Hin. unfold moved.
    rewrite (boundary_checks_x (move_player (increase_score r))).
    - rewrite Hx2, H8, H10. lra.
    - cbv zeta. rewrite Hx2, Hs2, Hw2, H8, H10, H12. lra. }
  assert (Hposy : size <= height r - 100 <= height r - size ->
                  player_y moved == height r - 100).
  { intros Hin. unfold moved.
    rewrite (boundary_checks_y (move_player (increase_score r))).
    - rewrite Hy2, H9, H11. lra.
    - cbv zeta. rewrite Hy2, Hs2, Hh2, H9, H11, H12. lra. }
  clear Hx2 Hy2 Hs2 Hw2 Hh2. clearbody moved.
  assert (Hscore : score s = 1%Z).
  { unfold s. rewrite Gs, H1. reflexivity. }
  revert Hscore Hcount. unfold s. clear s.
  rewrite G3, G4, G5, G6, G7, G8, Hp, Htrail, Px, Py, Mx, My, Hw, Hh, H10, H11.
  intros Hscore Hcount.
  exact (conj Hscore (conj Hcount (conj (conj eq_refl eq_refl)
           (conj (conj eq_refl eq_refl) (conj eq_refl (conj Hlen
              (conj (conj eq_refl eq_refl) (conj Hposx Hposy)))))))).
Qed.

Lemma startGame_unfold (win : Window) (d : Draws) (g : Game) :
  startGame win d g = gameLoop d (reset_game win g).
Proof. reflexivity. Qed.

(** C7, as the code has it.  Whatever the state it is called in,
    [startGame] first resets: score 0, frame counter 0, no asteroid, no
    trail particle, the surface resized, the player and the mouse target
    at the bottom centre [(width / 2, height - 100)].  It then runs the
    first frame of the session itself, from that state, before it
    returns.  When it returns the score is 1; the frame counter is 1, or
    0 when that frame ended the game; the mouse target is still at the
    bottom centre; the trail holds the one particle of that frame, aged
    once; there is at most one asteroid; and the player is where the
    boundary checks of that frame left it, which is the bottom centre
    along each axis on which that point is inside the playable
    rectangle. *)
Theorem C7_start_resets (win : Window) (d : Draws) (g : Game) :
  let r := reset_game win g in
  let s := startGame win d g in
  let moved := player (boundary_checks (move_player (increase_score r))) in
  let size := player_size (player g) in
  (session_state r = Running
   /\ score r = 0%Z /\ frameCount r = 0%Z
   /\ asteroids r = [] /\ player_trail (player r) = []
   /\ width r = Math_min 800 (innerWidth win * 0.95)
   /\ height r = Math_min 600 (innerHeight win * 0.8)
   /\ player_x (player r) = width r / 2
   /\ player_y (player r) = height r - 100
   /\ mouseX r = width r / 2
   /\ mouseY r = height r - 100)
  /\ s = gameLoop d r
  /\ score s = 1%Z
  /\ (frameCount s = 1%Z /\ session_state s = Running
      \/ frameCount s = 0%Z /\ session_state s = Ended)
  /\ (width s = width r /\ height s = height r)
  /\ (mouseX s = width s / 2 /\ mouseY s = height s - 100)
  /\ player_trail (player s) = [age_particle (new_particle moved)]
  /\ (length (asteroids s) <= 1)%nat
  /\ (player_x (player s) = player_x moved /\ player_y (player s) = player_y moved)
  /\ (size <= width s / 2 <= width s - size ->
      player_x (player s) == width s / 2)
  /\ (size <= height s - 100 <= height s - size ->
      player_y (player s) == height s - 100).
Proof.
  cbv zeta. rewrite (startGame_unfold win d g).
  destruct (reset_game_fields win g)
    as (H1 & H2 & H3 & H4 & H5 & H6 & H7 & H8 & H9 & H10 & H11 & H12).
  revert H1 H2 H3 H4 H5 H6 H7 H8 H9 H10 H11 H12.
  generalize (player_size (player g)) as size.
  generalize (reset_game win g) as r.
  intros r size H1 H2 H3 H4 H5 H6 H7 H8 H9 H10 H11 H12.
  assert (Hstate : session_state r = Running)
    by (unfold session_state; rewrite H5; reflexivity).
  pose proof (first_frame d r size H5 H1 H2 H3 H4 H8 H9 H10 H11 H12) as Hframe.
  cbv zeta in Hframe. revert Hframe.
  generalize (gameLoop d r) as s.
  generalize (player (boundary_checks (move_player (increase_score r)))) as moved.
  intros moved s Hframe.
  exact (conj
           (conj Hstate (conj H1 (conj H2 (conj H3 (conj H4 (conj H6 (conj H7
              (conj H8 (conj H9 (conj H10 H11))))))))))
           (conj eq_refl Hframe)).
Qed.

(** C7 as first stated fails on every input: when [startGame] returns
    the first frame has run, and the score is 1. *)
Lemma C7_counterexample :
  ~ (forall (win : Window) (d : Draws) (g : Game),
       let s := startGame win d g in
       score s = 0%Z /\ frameCount s = 0%Z
       /\ asteroids s = [] /\ player_trail (player s) = []
       /\ player_x (player s) = width s / 2
       /\ player_y (player s) = height s - 100
       /\ mouseX s = width s / 2 /\ mouseY s = height s - 100).
Proof.
  intros H.
  destruct (H desktop sample_draws (initial_game blank_page)) as (Hs & _).
  rewrite startGame_score in Hs. discriminate Hs.
Qed.

(** *** One loop per pending callback *)

Lemma update_running_raf (d : Draws) (g : Game) :
  gameActive g = true ->
  gameActive (update d g) = true ->
  animationId (update d g) = animationId g
  /\ rafPending (update d g) = rafPending g
  /\ rafNext (update d g) = rafNext g.
Proof.
  intros Hactive Hrunning.
  destruct (before_asteroids_frame d g) as (Hid & Hp1 & Hn1 & _).
  rewrite <- Hid, <- Hp1, <- Hn1.
  pose proof (update_cases d g Hactive) as Hcases. cbv zeta in Hcases.
  revert Hrunning Hcases. clear Hid Hp1 Hn1.
  generalize (before_asteroids d g) as g1. generalize (update d g) as u.
  intros u g1 Hrunning [[_ ->] | (pre & a & post & _ & _ & _ & ->)].
  - split; [reflexivity | split; reflexivity].
  - destruct (endGame_fields
                (set_asteroids g1 (pre ++ advance a :: advance_all (height g1) post)))
      as (E1 & _).
    rewrite E1 in Hrunning. discriminate Hrunning.
Qed.

(** A call of [gameLoop] that leaves the game running has requested one
    frame and cancelled none. *)
Lemma gameLoop_running (d : Draws) (g : Game) :
  gameActive g = true ->
  gameActive (gameLoop d g) = true ->
  rafPending (gameLoop d g) = rafPending g ++ [rafNext g]
  /\ animationId (gameLoop d g) = Some (rafNext g)
  /\ rafNext (gameLoop d g) = S (rafNext g)
  /\ score (gameLoop d g) = (score g + 1)%Z.
Proof.
  intros Hactive Hrunning.
  pose proof (gameLoop_score d g) as Hscore. rewrite Hactive in Hscore.
  rewrite Hscore. clear Hscore. revert Hrunning.
  rewrite (gameLoop_active d g Hactive). cbv zeta. intros Hrunning.
  assert (Hu : gameActive (update d g) = true) by exact Hrunning.
  destruct (update_running_raf d g Hactive Hu) as (_ & Hp & Hn).
  revert Hp Hn. generalize (update d g) as u. intros u Hp Hn.
  cbn [rafPending rafNext animationId set_animationId set_raf].
  rewrite Hp, Hn. repeat split; reflexivity.
Qed.

Lemma reset_game_raf (win : Window) (g : Game) :
  rafPending (reset_game win g) = rafPending g
  /\ rafNext (reset_game win g) = rafNext g.
Proof.
  destruct g as [? ? [|] ? ? ? [? ? ? ? ?] ? ? ? ? ? ?], win as [iw ih];
    split; vm_compute; reflexivity.
Qed.

(** X17. Every pending callback is a loop of its own.  A frame callback
    that runs on a running game and leaves it running calls [update]
    once, has left the list of pending callbacks and has put one new
    request at its end: the number of pending callbacks stays what it
    was.  [startGame] cancels nothing: when its first frame leaves the
    game running, the callbacks that were pending are still pending and
    one more has been requested.  So a restart while a callback is
    pending leaves two loops. *)
Theorem X17_loops_add_up (win : Window) (d : Draws) (g : Game) :
  (forall (h : nat) (rest : list nat),
     gameActive g = true -> rafPending g = h :: rest ->
     let g' := dispatch g (AnimationFrame d) in
     gameActive g' = true ->
     rafPending g' = rest ++ [rafNext g]
     /\ animationId g' = Some (rafNext g)
     /\ rafNext g' = S (rafNext g)
     /\ score g' = (score g + 1)%Z)
  /\ (let s := startGame win d g in
      gameActive s = true ->
      rafPending s = rafPending g ++ [rafNext g]
      /\ animationId s = Some (rafNext g)
      /\ rafNext s = S (rafNext g)
      /\ score s = 1%Z).
Proof.
  split.
  - intros h rest Hactive Hp g' Hrunning.
    assert (Hg' : g' = gameLoop d (set_raf g rest (rafNext g))).
    { unfold g'. cbn [dispatch]. rewrite Hp. reflexivity. }
    clearbody g'. subst g'.
    apply (gameLoop_running d (set_raf g rest (rafNext g)) Hactive Hrunning).
  - cbv zeta. rewrite (startGame_unfold win d g).
    destruct (reset_game_fields win g) as (Hs & _ & _ & _ & Hactive & _).
    destruct (reset_game_raf win g) as [Hp Hn].
    revert Hs Hactive Hp Hn. generalize (reset_game win g) as r.
    intros r Hs Hactive Hp Hn Hrunning.
    destruct (gameLoop_running d r Hactive Hrunning) as (G1 & G2 & G3 & G4).
    rewrite G1, G2, G3, G4, Hp, Hn, Hs. repeat split; reflexivity.
Qed.

(** X17 on a sample run: the game ends with one stray callback
    pending, the player restarts before it has run, and from then on two
    callbacks are pending; after the next two callbacks the score of the
    new session is 3. *)
Lemma X17_loops_add_up_witness :
  let ended :=
    dispatch (set_raf two_overhead [0%nat] 1) (AnimationFrame sample_draws) in
  let s := dispatch ended (RestartBtnClick desktop sample_draws) in
  let s2 := run s [AnimationFrame sample_draws; AnimationFrame sample_draws] in
  session_state ended = Ended /\ rafPending ended = [1%nat]
  /\ rafPending s = [1%nat; 2%nat]
  /\ session_state s2 = Running
  /\ rafPending s2 = [3%nat; 4%nat] /\ score s2 = 3%Z.
Proof.
  intros ended s s2.
  assert (He : session_state ended = Ended /\ rafPending ended = [1%nat]
               /\ rafNext ended = 2%nat)
    by (vm_compute; repeat split).
  destruct He as (He1 & He2 & He3).
  destruct (X17_loops_add_up desktop sample_draws ended) as [_ Hstart].
  cbv zeta in Hstart.
  assert (Hs : gameActive s = true) by (vm_compute; reflexivity).
  destruct (Hstart Hs) as (Hp & _).
  split; [exact He1|]. split; [exact He2|]. split.
  - unfold s. cbn [dispatch]. rewrite Hp, He2, He3. reflexivity.
  - vm_compute. repeat split.
Defined.

(** ** Binary64 *)





































(** ** The rounded arithmetic *)

(** The loop over the asteroids and the outcome of [update], for the
    functions of [Rounded]: the same facts as above, whatever the
    rounding and whatever [Math.hypot] returns. *)

Section RoundedUpdate.

Variable rnd : Q -> Q.
Variable hypot : Q -> Q -> Q.










End RoundedUpdate.




(** *** Collision *)




(** *** Spawning *)



(** What [spawnAsteroid] computes in binary64 at the largest draw, and
    on a surface narrower than the asteroid. *)
Lemma spawn_at_the_ends :
  ast_size (Rounded.new_asteroid binary64 last_draws 800 0) == 35
  /\ ast_speed (Rounded.new_asteroid binary64 last_draws 800 0) == 5
  /\ ast_size (Rounded.new_asteroid binary64 half_draws 20 0) == 22.5
  /\ ast_x (Rounded.new_asteroid binary64 half_draws 20 0) == -1.25.
Proof. vm_compute. repeat split. Qed.



(** *** Binary64 against the primitive floats *)

(** [binary64] and [Math_sqrt64] return what the floats of the kernel
    return, on the operations of the examples above and on a few
    others. *)
#[warnings="-inexact-float"]
Lemma binary64_on_samples :
  Q_of_float 0x1.8000000000001p+3 == grazing_size
  /\ Q_of_float (20 + 0x1.8000000000001p+3) == binary64 (20 + grazing_size)
  /\ Q_of_float (20 + 0x1.8000000000001p+3 - 5)
     == binary64 (binary64 (20 + grazing_size) - 5)
  /\ Q_of_float ((1 - 0x1p-53) * 25 + 10)
     == binary64 (binary64 ((1 - 2 ^ (-53)) * 25) + 10)
  /\ Q_of_float ((1 - 0x1p-53) * 3 + 2)
     == binary64 (binary64 ((1 - 2 ^ (-53)) * 3) + 2)
  /\ Q_of_float 0.15 == binary64 0.15
  /\ Q_of_float 0.005 == binary64 0.005
  /\ Q_of_float (0.1 + 0.2) == binary64 (binary64 0.1 + binary64 0.2)
  /\ Q_of_float (1 / 3) == binary64 (1 / 3)
  /\ Q_of_float (-7 / 3) == binary64 (-7 / 3)
  /\ Q_of_float (0x1p-1074 * 0.75) == binary64 (2 ^ (-1074) * 0.75)
  /\ Q_of_float (PrimFloat.sqrt 2) == Math_sqrt64 2
  /\ Q_of_float (PrimFloat.sqrt (0x1.4ffffffffffffp+4 * 0x1.4ffffffffffffp+4 + 784))
     == 35
  /\ hypot_nearest (21 - 2 ^ (-48)) 28 == 35.
Proof. vm_compute. repeat split. Qed.
